(** * wsflate: permessage-deflate negotiation, RSV extension and stream writer

    A shallow embedding of the Go package [wsflate] (parameters.go,
    extension.go, writer.go) together with the few collaborators it calls
    ([httphead.Option], [ws.Rsv]/[ws.RsvBits], the delay buffer [cbuf]).

    Conventions:
    - a Go [byte] is a [Z] in [0, 256); bit operations are [Z.land]/[Z.lor];
    - a Go [[]byte] that may be [nil] is an [option string];
    - a Go [error] is an [option error] ([None] is [nil]);
    - a Go function that may [panic] returns a [result];
    - a method with a pointer receiver takes the receiver's value and returns
      the updated one. *)

From Stdlib Require Import ZArith List String Ascii Bool Lia.
From Stdlib.Strings Require Import Byte.
From Stdlib Require Import DecimalString.
Import ListNotations.

Local Open Scope string_scope.
Local Open Scope Z_scope.

(** ** Go values shared by the packages *)

(** A byte slice; [None] is the nil slice. *)
Definition bytes : Type := option string.

Definition content (b : bytes) : string :=
  match b with
  | None => EmptyString
  | Some s => s
  end.

(** Go's builtin [len] on a byte slice. *)
Definition len (b : bytes) : Z := Z.of_nat (String.length (content b)).

(** [bytes.Equal]: same length and same contents; nil equals empty. *)
Definition bytes_Equal (a b : bytes) : bool := String.eqb (content a) (content b).

(** The fixed-size array [[4]byte] held by the delay buffer. *)
Definition tail4 : Type := (byte * byte * byte * byte)%type.

Definition tail4_eqb (a b : tail4) : bool :=
  let '(a0, a1, a2, a3) := a in
  let '(b0, b1, b2, b3) := b in
  Byte.eqb a0 b0 && Byte.eqb a1 b1 && Byte.eqb a2 b2 && Byte.eqb a3 b3.

(** The [error] values this package produces or passes on. *)
Inductive error : Type :=
| ProtocolError (msg : string)
    (* ws.ProtocolError(msg) *)
| ParamError (reason key : string) (val : bytes)
    (* fmt.Errorf("wsflate: %s extension parameter %q: %q", reason, key, val) *)
| Errorf (msg : string)
    (* fmt.Errorf(msg) *)
| BadTailError (got want : tail4)
    (* fmt.Errorf("wsflate: bad compressor: unexpected stream tail: %#x vs %#x", got, want) *)
| ExternalError (code : nat).
    (* an error value handed back by a collaborator (compressor, destination) *)

(** Outcome of a Go call that may panic. *)
Inductive result (A : Type) : Type :=
| Ok (a : A)
| Panic (msg : string).

Arguments Ok {A} a.
Arguments Panic {A} msg.

Definition bind {A B : Type} (r : result A) (k : A -> result B) : result B :=
  match r with
  | Ok a => k a
  | Panic m => Panic m
  end.

Notation "x <- r ;; k" := (bind r (fun x => k))
  (at level 61, r at next level, right associativity).

(** [strconv.Itoa] on a non-negative or negative integer. *)
Definition Itoa (n : Z) : string := NilZero.string_of_int (Z.to_int n).

(** ** Package ws: the reserved bits of a frame header *)

Module Ws.

Definition bit5 : Z := 0x04.
Definition bit6 : Z := 0x02.
Definition bit7 : Z := 0x01.

(** Modelled from the spec: [ws.Rsv] of frame.go, which is not among the
    sources.  The header carries a 3-bit reserved field made of r1 (the
    compressed-message bit), r2 and r3; [Rsv] packs the three bits into the
    low three bits of a byte, r1 being the most significant. *)
Definition Rsv (r1 r2 r3 : bool) : Z :=
  let rsv := 0 in
  let rsv := if r1 then Z.lor rsv bit5 else rsv in
  let rsv := if r2 then Z.lor rsv bit6 else rsv in
  let rsv := if r3 then Z.lor rsv bit7 else rsv in
  rsv.

(** Modelled from the spec: [ws.RsvBits] of frame.go, which is not among the
    sources.  It decomposes the reserved field into (r1, r2, r3). *)
Definition RsvBits (rsv : Z) : bool * bool * bool :=
  (negb (Z.land rsv bit5 =? 0),
   negb (Z.land rsv bit6 =? 0),
   negb (Z.land rsv bit7 =? 0)).

(** A value of the 3-bit reserved field. *)
Definition is_rsv (rsv : Z) : Prop := 0 <= rsv < 8.

End Ws.

(** ** Package wsflate, extension.go: the per-frame compression bit *)

Module RsvExtender.

Definition errNonFirstFragmentEnabledBit : error :=
  ProtocolError "non-first fragment contains compression bit enabled".

(** [func ExtendRead(fseq int, rsv byte) (byte, error)] *)
Definition ExtendRead (fseq : Z) (rsv : Z) : Z * option error :=
  let '(r1, r2, r3) := Ws.RsvBits rsv in
  if (fseq >? 0) && r1 then
    (rsv, Some errNonFirstFragmentEnabledBit)
  else if fseq >? 0 then
    (rsv, None)
  else
    (Ws.Rsv false r2 r3, None).

(** [func ExtendWrite(fseq int, rsv byte) (byte, error)] *)
Definition ExtendWrite (fseq : Z) (rsv : Z) : Z * option error :=
  let '(r1, r2, r3) := Ws.RsvBits rsv in
  if r1 then
    (rsv, Some (Errorf "wsflate: compression bit is already set"))
  else if fseq >? 0 then
    (rsv, None)
  else
    (Ws.Rsv true r2 r3, None).

(** Projections of the decomposition, for statements. *)
Definition r1 (rsv : Z) : bool := fst (fst (Ws.RsvBits rsv)).
Definition r2 (rsv : Z) : bool := snd (fst (Ws.RsvBits rsv)).
Definition r3 (rsv : Z) : bool := snd (Ws.RsvBits rsv).

(** An error of the protocol-violation class ([ws.ProtocolError]). *)
Definition is_protocol_violation (e : option error) : bool :=
  match e with
  | Some (ProtocolError _) => true
  | _ => false
  end.

End RsvExtender.

(** ** Package httphead: the tokenized header option *)

Module Httphead.

(** Modelled from the spec: [httphead.Option] and its [Parameters], which
    belong to an imported package.  A tokenized option is a name plus an
    ordered list of (key, optional value) pairs; an absent value is the nil
    slice. *)
Record Option : Type := mkOption {
  Name : bytes;
  Parameters : list (string * bytes)
}.

(** The zero value [httphead.Option{}]: nil name, no parameter. *)
Definition zero : Option := mkOption None [].

(** Modelled from the spec: [Parameters.Set(key, value)].  The pairs are
    kept in insertion order; setting a key that is already present replaces
    its value where it stands, a new key goes to the end. *)
Fixpoint set_pair (ps : list (string * bytes)) (key : string) (value : bytes)
  : list (string * bytes) :=
  match ps with
  | [] => [(key, value)]
  | (k, v) :: rest =>
      if String.eqb k key then (k, value) :: rest
      else (k, v) :: set_pair rest key value
  end.

Definition Set_ (opt : Option) (key : string) (value : bytes) : Option :=
  mkOption (Name opt) (set_pair (Parameters opt) key value).

(** Modelled from the spec: [Parameters.ForEach(cb)].  The callback is
    called on the pairs in order, threading the variables it captures
    (here the state [S]), until it returns false. *)
Fixpoint ForEach {S : Type} (ps : list (string * bytes))
    (cb : S -> string -> bytes -> S * bool) (s : S) : S :=
  match ps with
  | [] => s
  | (k, v) :: rest =>
      let '(s', ok) := cb s k v in
      if ok then ForEach rest cb s' else s'
  end.

Definition digit_of (c : ascii) : option Z :=
  let n := Z.of_nat (nat_of_ascii c) in
  if (48 <=? n) && (n <=? 57) then Some (n - 48) else None.

Fixpoint digits (s : string) (acc : Z) : option Z :=
  match s with
  | EmptyString => Some acc
  | String c rest =>
      match digit_of c with
      | Some d => digits rest (10 * acc + d)
      | None => None
      end
  end.

(** Modelled from the spec: [httphead.IntFromASCII], of an imported
    package.  It reads a decimal ASCII integer: at least one byte, every
    byte a digit; the second component reports success. *)
Definition IntFromASCII (bts : bytes) : Z * bool :=
  if len bts <? 1 then (0, false)
  else match digits (content bts) 0 with
       | Some n => (n, true)
       | None => (0, false)
       end.

End Httphead.

(** ** Package wsflate, parameters.go *)

Module Wsflate.

Definition ExtensionName : string := "permessage-deflate".

Definition serverNoContextTakeover : string := "server_no_context_takeover".
Definition clientNoContextTakeover : string := "client_no_context_takeover".
Definition serverMaxWindowBits : string := "server_max_window_bits".
Definition clientMaxWindowBits : string := "client_max_window_bits".

Definition ExtensionNameBytes : bytes := Some ExtensionName.

(** [windowBits [8][]byte], filled by [init] with [strconv.Itoa(i + 8)]. *)
Definition windowBits : list bytes :=
  map (fun i => Some (Itoa (Z.of_nat i + 8))) (seq 0 8).

Definition isValidBits (x : Z) : bool := (8 <=? x) && (x <=? 15).

(** [type WindowBits byte] is a [Z] in [0, 256). *)
Record Parameters : Type := mkParameters {
  ServerNoContextTakeover : bool;
  ClientNoContextTakeover : bool;
  ServerMaxWindowBits : Z;
  ClientMaxWindowBits : Z
}.

(** The zero value [Parameters{}]. *)
Definition zeroParameters : Parameters := mkParameters false false 0 0.

Definition set_ServerNoContextTakeover (p : Parameters) (b : bool) : Parameters :=
  mkParameters b (ClientNoContextTakeover p) (ServerMaxWindowBits p) (ClientMaxWindowBits p).
Definition set_ClientNoContextTakeover (p : Parameters) (b : bool) : Parameters :=
  mkParameters (ServerNoContextTakeover p) b (ServerMaxWindowBits p) (ClientMaxWindowBits p).
Definition set_ServerMaxWindowBits (p : Parameters) (w : Z) : Parameters :=
  mkParameters (ServerNoContextTakeover p) (ClientNoContextTakeover p) w (ClientMaxWindowBits p).
Definition set_ClientMaxWindowBits (p : Parameters) (w : Z) : Parameters :=
  mkParameters (ServerNoContextTakeover p) (ClientNoContextTakeover p) (ServerMaxWindowBits p) w.

(** [func bitsFromASCII(p []byte) (WindowBits, bool)]; the conversion
    [WindowBits(n)] truncates to a byte. *)
Definition bitsFromASCII (p : bytes) : Z * bool :=
  let '(n, ok) := Httphead.IntFromASCII p in
  if negb ok || negb (isValidBits n) then (0, false)
  else (n mod 256, true).

(** [func setBits(opt *httphead.Option, name []byte, bits WindowBits)] *)
Definition setBits (opt : Httphead.Option) (name : string) (bits : Z)
  : result Httphead.Option :=
  if bits =? 0 then Ok opt
  else if bits =? 1 then Ok (Httphead.Set_ opt name None)
  else if negb (isValidBits bits) then
    Panic ("wsflate: invalid bits value: " ++ Itoa bits)
  else
    match nth_error windowBits (Z.to_nat (bits - 8)) with
    | Some v => Ok (Httphead.Set_ opt name v)
    | None => Panic "runtime error: index out of range"
    end.

(** [func setBool(opt *httphead.Option, name []byte, flag bool)] *)
Definition setBool (opt : Httphead.Option) (name : string) (flag : bool)
  : Httphead.Option :=
  if flag then Httphead.Set_ opt name None else opt.

(** [func paramError(reason string, key, val []byte) error] *)
Definition paramError (reason : string) (key : string) (val : bytes) : error :=
  ParamError reason key val.

(** The classification of a parameter error is its [reason]. *)
Definition reason_of (e : option error) : option string :=
  match e with
  | Some (ParamError reason _ _) => Some reason
  | _ => None
  end.

Definition clientMaxWindowBitsSeen : Z := Z.shiftl 1 0.
Definition serverMaxWindowBitsSeen : Z := Z.shiftl 1 1.
Definition clientNoContextTakeoverSeen : Z := Z.shiftl 1 2.
Definition serverNoContextTakeoverSeen : Z := Z.shiftl 1 3.

(** The variables the callback of [Parse] captures: the receiver [*p], the
    local [seen] and the named result [err]. *)
Record parseEnv : Type := mkEnv {
  env_p : Parameters;
  env_seen : Z;
  env_err : option error
}.

Definition with_p (e : parseEnv) (p : Parameters) : parseEnv :=
  mkEnv p (env_seen e) (env_err e).
Definition with_seen (e : parseEnv) (seen : Z) : parseEnv :=
  mkEnv (env_p e) seen (env_err e).
Definition with_err (e : parseEnv) (err : error) : parseEnv :=
  mkEnv (env_p e) (env_seen e) (Some err).

Definition is_seen (e : parseEnv) (flag : Z) : bool :=
  negb (Z.land (env_seen e) flag =? 0).
Definition mark_seen (e : parseEnv) (flag : Z) : parseEnv :=
  with_seen e (Z.lor (env_seen e) flag).

(** The body of the closure handed to [ForEach]; the boolean is its
    result [ok]. *)
Definition parseParam (e : parseEnv) (key : string) (val : bytes)
  : parseEnv * bool :=
  if String.eqb key clientMaxWindowBits then
    if len val =? 0 then
      (with_p e (set_ClientMaxWindowBits (env_p e) 1), true)
    else if is_seen e clientMaxWindowBitsSeen then
      (with_err e (paramError "duplicate" key val), false)
    else
      let e := mark_seen e clientMaxWindowBitsSeen in
      let '(b, ok) := bitsFromASCII val in
      let e := with_p e (set_ClientMaxWindowBits (env_p e) b) in
      if negb ok then (with_err e (paramError "invalid" key val), false)
      else (e, true)
  else if String.eqb key serverMaxWindowBits then
    if len val =? 0 then
      (with_err e (paramError "invalid" key val), false)
    else if is_seen e serverMaxWindowBitsSeen then
      (with_err e (paramError "duplicate" key val), false)
    else
      let e := mark_seen e serverMaxWindowBitsSeen in
      let '(b, ok) := bitsFromASCII val in
      let e := with_p e (set_ServerMaxWindowBits (env_p e) b) in
      if negb ok then (with_err e (paramError "invalid" key val), false)
      else (e, true)
  else if String.eqb key clientNoContextTakeover then
    if len val >? 0 then
      (with_err e (paramError "invalid" key val), false)
    else if is_seen e clientNoContextTakeoverSeen then
      (with_err e (paramError "duplicate" key val), false)
    else
      let e := mark_seen e clientNoContextTakeoverSeen in
      (with_p e (set_ClientNoContextTakeover (env_p e) true), true)
  else if String.eqb key serverNoContextTakeover then
    if len val >? 0 then
      (with_err e (paramError "invalid" key val), false)
    else if is_seen e serverNoContextTakeoverSeen then
      (with_err e (paramError "duplicate" key val), false)
    else
      let e := mark_seen e serverNoContextTakeoverSeen in
      (with_p e (set_ServerNoContextTakeover (env_p e) true), true)
  else
    (with_err e (paramError "unexpected" key val), false).

(** [func (p *Parameters) Parse(opt httphead.Option) (err error)]: the
    receiver is overwritten, whatever it held; the pair returned is the
    receiver after the call and the error. *)
Definition Parse (p : Parameters) (opt : Httphead.Option)
  : Parameters * option error :=
  let p := zeroParameters in
  let e := Httphead.ForEach (Httphead.Parameters opt) parseParam (mkEnv p 0 None) in
  (env_p e, env_err e).

(** [func (p Parameters) Option() httphead.Option] *)
Definition Option (p : Parameters) : result Httphead.Option :=
  let opt := Httphead.mkOption ExtensionNameBytes [] in
  let opt := setBool opt serverNoContextTakeover (ServerNoContextTakeover p) in
  let opt := setBool opt clientNoContextTakeover (ClientNoContextTakeover p) in
  opt <- setBits opt serverMaxWindowBits (ServerMaxWindowBits p) ;;
  opt <- setBits opt clientMaxWindowBits (ClientMaxWindowBits p) ;;
  Ok opt.

(** The four keys [Parse] knows, and the bit of [seen] each one owns. *)
Definition recognized (key : string) : bool :=
  String.eqb key clientMaxWindowBits || String.eqb key serverMaxWindowBits
  || String.eqb key clientNoContextTakeover
  || String.eqb key serverNoContextTakeover.

Definition flag_of (key : string) : Z :=
  if String.eqb key clientMaxWindowBits then clientMaxWindowBitsSeen
  else if String.eqb key serverMaxWindowBits then serverMaxWindowBitsSeen
  else if String.eqb key clientNoContextTakeover then clientNoContextTakeoverSeen
  else if String.eqb key serverNoContextTakeover then serverNoContextTakeoverSeen
  else 0.

(** The value form the wire encoding gives a key: a value for the
    [*_max_window_bits] keys, none for the [*_no_context_takeover] keys. *)
Definition value_form (key : string) (val : bytes) : bool :=
  if String.eqb key clientMaxWindowBits || String.eqb key serverMaxWindowBits
  then negb (len val =? 0)
  else len val =? 0.

(** Occurrences of [key] among the pairs; for [client_max_window_bits]
    only the occurrences that carry a value are counted. *)
Definition counted (key : string) (kv : string * bytes) : bool :=
  String.eqb (fst kv) key
  && (negb (String.eqb key clientMaxWindowBits) || negb (len (snd kv) =? 0)).

Definition occurrences (key : string) (ps : list (string * bytes)) : nat :=
  List.length (filter (counted key) ps).

(** Window bits that [Option] encodes and [Parse] reads back. *)
Definition explicit_bits (w : Z) : Prop := 8 <= w <= 15.

(** [type Extension struct]: the field [Parameters] is what the server is
    going to accept; [accepted] and [params] are the outcome. *)
Record Extension : Type := mkExtension {
  ext_Parameters : Parameters;
  accepted : bool;
  params : Parameters
}.

Definition set_params (n : Extension) (p : Parameters) : Extension :=
  mkExtension (ext_Parameters n) (accepted n) p.
Definition set_accepted (n : Extension) (b : bool) : Extension :=
  mkExtension (ext_Parameters n) b (params n).

(** What a call of [Negotiate] hands back when it returns: the named
    results [(accept, err)]. *)
Definition negotiated : Type := (Httphead.Option * option error)%type.

(** The bare [return] with both named results at their zero value. *)
Definition declined : negotiated := (Httphead.zero, None).

(** [func (n *Extension) Negotiate(opt httphead.Option)
      (accept httphead.Option, err error)]: the receiver after the call,
    and the results or the panic of [want.Option()]. *)
Definition Negotiate (n : Extension) (opt : Httphead.Option)
  : Extension * result negotiated :=
  if negb (bytes_Equal (Httphead.Name opt) ExtensionNameBytes) then
    (n, Ok declined)
  else if accepted n then
    (n, Ok declined)
  else
    let want := ext_Parameters n in
    let '(parsed, err) := Parse (params n) opt in
    let n := set_params n parsed in
    match err with
    | Some e => (n, Ok (Httphead.zero, Some e))
    | None =>
        if ServerMaxWindowBits (params n) >? ServerMaxWindowBits want then
          (n, Ok declined)
        else if ClientMaxWindowBits want >? ClientMaxWindowBits (params n) then
          (n, Ok declined)
        else if ServerNoContextTakeover (params n)
                && negb (ServerNoContextTakeover want) then
          (n, Ok declined)
        else
          let n := set_accepted n true in
          (n, accept <- Option want ;; Ok (accept, None))
    end.

(** [func (n *Extension) Accepted() (_ Parameters, accepted bool)] *)
Definition Accepted (n : Extension) : Parameters * bool :=
  (params n, accepted n).

(** [func (n *Extension) Reset()] *)
Definition Reset (n : Extension) : Extension :=
  let n := set_accepted n false in
  set_params n zeroParameters.

(** Successive calls of [Negotiate] on one extension, one per option of
    the header, as an upgrade makes them; the results are kept in order. *)
Fixpoint NegotiateAll (n : Extension) (opts : list Httphead.Option)
  : Extension * list (result negotiated) :=
  match opts with
  | [] => (n, [])
  | opt :: rest =>
      let '(n, r) := Negotiate n opt in
      let '(n, rs) := NegotiateAll n rest in
      (n, r :: rs)
  end.

(** The three rules under which a parsed offer is turned down, as the
    specification lists them. *)
Definition decline_rule (desired offered : Parameters) : bool :=
  (ServerMaxWindowBits offered >? ServerMaxWindowBits desired)
  || (ClientMaxWindowBits desired >? ClientMaxWindowBits offered)
  || (ServerNoContextTakeover offered && negb (ServerNoContextTakeover desired)).

(** [MaxLZ77WindowSize = 32768] *)
Definition MaxLZ77WindowSize : Z := 32768.

(** Go's [int], taken 64 bits wide: the value an arithmetic result wraps
    to. *)
Definition wrap_int (z : Z) : Z := (z + 2 ^ 63) mod 2 ^ 64 - 2 ^ 63.

(** [func (b WindowBits) Defined() bool]; the method is called [Defined] in
    the source. *)
Definition WindowBits_Defined (b : Z) : bool := b >? 0.

(** [func (b WindowBits) Bytes() int], that is [1 << uint(b)]. *)
Definition Bytes (b : Z) : Z := wrap_int (Z.shiftl 1 b).

(** The window bits [setBits] encodes without panicking. *)
Definition encodable (w : Z) : bool := (w =? 0) || (w =? 1) || isValidBits w.

(** Whether a key occurs among the parameters of an option. *)
Definition has_key (key : string) (opt : Httphead.Option) : bool :=
  existsb (fun kv => String.eqb (fst kv) key) (Httphead.Parameters opt).

(** The window bits [Parse] can leave in its receiver. *)
Definition parsed_bits (p : Parameters) : Prop :=
  (ServerMaxWindowBits p = 0 \/ 8 <= ServerMaxWindowBits p <= 15) /\
  (ClientMaxWindowBits p = 0 \/ ClientMaxWindowBits p = 1 \/
   8 <= ClientMaxWindowBits p <= 15).

(** The three reasons [Parse] gives to [paramError]. *)
Definition parse_reason (reason : string) : Prop :=
  reason = "duplicate" \/ reason = "invalid" \/ reason = "unexpected".

(** An extension whose [accepted] flag, when set, vouches for the observed
    parameters: none of the three rules turns them down. *)
Definition settled (n : Extension) : Prop :=
  accepted n = true -> decline_rule (ext_Parameters n) (params n) = false.

End Wsflate.

(** ** Package wsflate, writer.go: compression with the trailer held back *)

Module Writer.

(** [compressionTail = [4]byte{0, 0, 0xff, 0xff}] *)
Definition compressionTail : tail4 := (x00, x00, xff, xff).

(** A destination ([io.Writer]) is represented by the bytes it has
    received so far. *)
Definition sink : Type := list byte.

(** Modelled from the spec: the delay buffer [cbuf] of cbuf.go, which is
    not among the sources.  It sits between the compressor and the real
    destination and holds back the trailing 4 bytes: [buf] is the
    fixed-size array that [checkTail] compares with the trailer, [n] the
    number of bytes held, [dst] the destination. *)
Record cbuf : Type := mkCbuf {
  buf : tail4;
  n : Z;
  dst : sink
}.

(** Modelled from the spec: [cbuf.reset(dst)] rebinds the buffer to a
    destination and forgets the bytes held. *)
Definition cbuf_reset (cb : cbuf) (d : sink) : cbuf :=
  mkCbuf (x00, x00, x00, x00) 0 d.

(** Modelled from the spec: one byte enters the delay buffer; once 4 bytes
    are held, the oldest one is forwarded to the destination. *)
Definition cbuf_push (cb : cbuf) (b : byte) : cbuf :=
  let '(b0, b1, b2, b3) := buf cb in
  if n cb =? 0 then mkCbuf (b, b1, b2, b3) 1 (dst cb)
  else if n cb =? 1 then mkCbuf (b0, b, b2, b3) 2 (dst cb)
  else if n cb =? 2 then mkCbuf (b0, b1, b, b3) 3 (dst cb)
  else if n cb =? 3 then mkCbuf (b0, b1, b2, b) 4 (dst cb)
  else mkCbuf (b1, b2, b3, b) 4 (dst cb ++ [b0])%list.

(** Modelled from the spec: [cbuf.Write(p)] forwards everything but the
    trailing 4 bytes. *)
Definition cbuf_Write (cb : cbuf) (p : list byte) : cbuf :=
  fold_left cbuf_push p cb.

(** [type Compressor interface { io.Writer; Flush() error }], with the
    optional capabilities [io.Closer] and [WriteResetter] that [Close] and
    [Reset] look for by type assertion.  An instance writes into the
    [cbuf] it was created on, so every method transforms both the
    instance and the buffer. *)
Class Compressor (C : Type) : Type := {
  c_Write : C -> cbuf -> list byte -> C * cbuf * (Z * option error);
  c_Flush : C -> cbuf -> C * cbuf * option error;
  c_Close : option (C -> cbuf -> C * cbuf * option error);
  c_Reset : option (C -> cbuf -> C * cbuf)
}.

Section WithCompressor.

Context {C : Type} {I : Compressor C}.

(** [type Writer struct]; the callback field [Compressor] is named
    [NewCompressor] here, and the field [cbuf] is [w_cbuf]. *)
Record Writer : Type := mkWriter {
  Dest : sink;
  NewCompressor : cbuf -> C * cbuf;
  c : option C;
  err : option error;
  w_cbuf : cbuf
}.

Definition set_c (w : Writer) (x : option C) : Writer :=
  mkWriter (Dest w) (NewCompressor w) x (err w) (w_cbuf w).
Definition set_err (w : Writer) (e : option error) : Writer :=
  mkWriter (Dest w) (NewCompressor w) (c w) e (w_cbuf w).
Definition set_cbuf (w : Writer) (cb : cbuf) : Writer :=
  mkWriter (Dest w) (NewCompressor w) (c w) (err w) cb.

(** [func (w *Writer) init()]; the second component is [w.c] after the
    call. *)
Definition init (w : Writer) : Writer * C :=
  match c w with
  | Some x => (w, x)
  | None =>
      let w := set_cbuf w (cbuf_reset (w_cbuf w) (Dest w)) in
      let '(x, cb) := NewCompressor w (w_cbuf w) in
      (set_c (set_cbuf w cb) (Some x), x)
  end.

(** [func (w *Writer) Reset(dest io.Writer)] *)
Definition Reset (w : Writer) (dest : sink) : Writer :=
  let '(w, x) := init w in
  let w := set_err w None in
  let w := set_cbuf w (cbuf_reset (w_cbuf w) dest) in
  match c_Reset with
  | Some reset =>
      let '(x, cb) := reset x (w_cbuf w) in
      set_c (set_cbuf w cb) (Some x)
  | None =>
      let '(x, cb) := NewCompressor w (w_cbuf w) in
      set_c (set_cbuf w cb) (Some x)
  end.

(** [func (w *Writer) Write(p []byte) (n int, err error)] *)
Definition Write (w : Writer) (p : list byte) : Writer * (Z * option error) :=
  let '(w, x) := init w in
  match err w with
  | Some e => (w, (0, Some e))
  | None =>
      let '(x, cb, (k, e)) := c_Write x (w_cbuf w) p in
      let w := set_err (set_c (set_cbuf w cb) (Some x)) e in
      (w, (k, err w))
  end.

(** [func (w *Writer) checkTail()] *)
Definition checkTail (w : Writer) : Writer :=
  match err w with
  | None =>
      if negb (tail4_eqb (buf (w_cbuf w)) compressionTail) then
        set_err w (Some (BadTailError (buf (w_cbuf w)) compressionTail))
      else w
  | Some _ => w
  end.

(** [func (w *Writer) Flush() error] *)
Definition Flush (w : Writer) : Writer * option error :=
  let '(w, x) := init w in
  match err w with
  | Some e => (w, Some e)
  | None =>
      let '(x, cb, e) := c_Flush x (w_cbuf w) in
      let w := set_err (set_c (set_cbuf w cb) (Some x)) e in
      let w := checkTail w in
      (w, err w)
  end.

(** [func (w *Writer) Close() error] *)
Definition Close (w : Writer) : Writer * option error :=
  match err w with
  | Some e => (w, Some e)
  | None =>
      let '(w, x) := init w in
      let w :=
        match c_Close with
        | Some close =>
            let '(x, cb, e) := close x (w_cbuf w) in
            set_err (set_c (set_cbuf w cb) (Some x)) e
        | None => w
        end in
      let w := checkTail w in
      (w, err w)
  end.

(** [func (w *Writer) Err() error] *)
Definition Err (w : Writer) : option error := err w.

(** The calls a client makes on a writer between two [Reset]s, and a
    run of them; only the error each call returns is kept. *)
Inductive call : Type :=
| CallWrite (p : list byte)
| CallFlush
| CallClose.

Definition perform (w : Writer) (k : call) : Writer * option error :=
  match k with
  | CallWrite p => let '(w, (_, e)) := Write w p in (w, e)
  | CallFlush => Flush w
  | CallClose => Close w
  end.

Fixpoint performAll (w : Writer) (ks : list call)
  : Writer * list (option error) :=
  match ks with
  | [] => (w, [])
  | k :: rest =>
      let '(w, e) := perform w k in
      let '(w, es) := performAll w rest in
      (w, e :: es)
  end.

End WithCompressor.

Arguments Writer C : clear implicits.

(** A compressor for examples: it stores, passing the bytes written on as
    they are, and emits [trailer] on [Flush]; it has neither [Close] nor
    [Reset]. *)
Definition storing (trailer : list byte) : Compressor unit := {|
  c_Write := fun x cb p => (x, cbuf_Write cb p, (Z.of_nat (List.length p), None));
  c_Flush := fun x cb => (x, cbuf_Write cb trailer, None);
  c_Close := None;
  c_Reset := None
|}.

(** The same compressor with a [Close] that emits [trailer] as well. *)
Definition storingCloser (trailer : list byte) : Compressor unit := {|
  c_Write := fun x cb p => (x, cbuf_Write cb p, (Z.of_nat (List.length p), None));
  c_Flush := fun x cb => (x, cbuf_Write cb trailer, None);
  c_Close := Some (fun x cb => (x, cbuf_Write cb trailer, None));
  c_Reset := None
|}.

(** [&Writer{Dest: dest, Compressor: ...}] for these compressors. *)
Definition newWriter (dest : sink) : Writer unit :=
  mkWriter dest (fun cb => (tt, cb)) None None
           (mkCbuf (x00, x00, x00, x00) 0 []).

End Writer.

(** ** Package wsflate, reader.go: decompression with the trailer supplied *)

Module Reader.

(** [compressionReadTail = [9]byte{0, 0, 0xff, 0xff, 1, 0, 0, 0xff, 0xff}] *)
Definition compressionReadTail : list byte :=
  [x00; x00; xff; xff; x01; x00; x00; xff; xff].

(** A source ([io.Reader]) is represented by the bytes it still holds. *)
Definition source : Type := list byte.

(** Modelled from the spec: the suffixed source [suffixedReader], whose file
    is not among the sources.  It forwards the reads of the real source [r]
    and, once that is exhausted, hands out the bytes of [suffix] from
    position [pos] on. *)
Record suffixedReader : Type := mkSuffixed {
  sr_r : source;
  sr_pos : Z;
  suffix : list byte
}.

(** Modelled from the spec: [suffixedReader.reset(src)] rebinds to a source
    and starts the suffix over. *)
Definition sr_reset (sr : suffixedReader) (src : source) : suffixedReader :=
  mkSuffixed src 0 (suffix sr).

(** [type Decompressor interface { io.Reader }], with the optional
    capabilities [io.Closer] and [ReadResetter].  An instance reads from the
    [suffixedReader] it was created on; [d_Read] receives [len(p)] and
    returns the bytes stored in [p] and the error. *)
Class Decompressor (D : Type) : Type := {
  d_Read : D -> suffixedReader -> Z -> D * suffixedReader * (list byte * option error);
  d_Close : option (D -> suffixedReader -> D * suffixedReader * option error);
  d_Reset : option (D -> suffixedReader -> D * suffixedReader)
}.

Section WithDecompressor.

Context {D : Type} {I : Decompressor D}.

(** [type Reader struct]; the callback field [Decompressor] is named
    [NewDecompressor] here, and the field [err] is [r_err]. *)
Record Reader : Type := mkReader {
  Source : source;
  NewDecompressor : suffixedReader -> D * suffixedReader;
  d : option D;
  r_err : option error;
  sr : suffixedReader
}.

Definition set_d (r : Reader) (x : option D) : Reader :=
  mkReader (Source r) (NewDecompressor r) x (r_err r) (sr r).
Definition set_r_err (r : Reader) (e : option error) : Reader :=
  mkReader (Source r) (NewDecompressor r) (d r) e (sr r).
Definition set_sr (r : Reader) (s : suffixedReader) : Reader :=
  mkReader (Source r) (NewDecompressor r) (d r) (r_err r) s.
Definition set_Source (r : Reader) (src : source) : Reader :=
  mkReader src (NewDecompressor r) (d r) (r_err r) (sr r).

(** [func (r *Reader) init()]; the second component is [r.d] after the
    call. *)
Definition init (r : Reader) : Reader * D :=
  match d r with
  | Some x => (r, x)
  | None =>
      let r := set_sr r (mkSuffixed (sr_r (sr r)) (sr_pos (sr r)) compressionReadTail) in
      let r := set_sr r (sr_reset (sr r) (Source r)) in
      let '(x, s) := NewDecompressor r (sr r) in
      (set_d (set_sr r s) (Some x), x)
  end.

(** [func (r *Reader) Reset(src io.Reader)] *)
Definition Reset (r : Reader) (src : source) : Reader :=
  let '(r, x) := init r in
  let r := set_r_err r None in
  let r := set_Source r src in
  let r := set_sr r (sr_reset (sr r) src) in
  match d_Reset with
  | Some reset =>
      let '(x, s) := reset x (sr r) in
      set_d (set_sr r s) (Some x)
  | None =>
      let '(x, s) := NewDecompressor r (sr r) in
      set_d (set_sr r s) (Some x)
  end.

(** [func (r *Reader) Read(p []byte) (n int, err error)]; [cap] is
    [len(p)], the bytes returned are those stored in [p]. *)
Definition Read (r : Reader) (cap : Z) : Reader * (list byte * option error) :=
  let '(r, x) := init r in
  match r_err r with
  | Some e => (r, ([], Some e))
  | None =>
      let '(x, s, res) := d_Read x (sr r) cap in
      (set_d (set_sr r s) (Some x), res)
  end.

(** [func (r *Reader) Close() error] *)
Definition Close (r : Reader) : Reader * option error :=
  let '(r, x) := init r in
  match r_err r with
  | Some e => (r, Some e)
  | None =>
      match d_Close with
      | Some close =>
          let '(x, s, e) := close x (sr r) in
          (set_d (set_sr r s) (Some x), e)
      | None => (r, None)
      end
  end.

(** The calls a client makes on a reader, and a run of them; only the error
    each call returns is kept. *)
Inductive call : Type :=
| CallRead (cap : Z)
| CallClose.

Definition perform (r : Reader) (k : call) : Reader * option error :=
  match k with
  | CallRead cap => let '(r, (_, e)) := Read r cap in (r, e)
  | CallClose => Close r
  end.

Fixpoint performAll (r : Reader) (ks : list call)
  : Reader * list (option error) :=
  match ks with
  | [] => (r, [])
  | k :: rest =>
      let '(r, e) := perform r k in
      let '(r, es) := performAll r rest in
      (r, e :: es)
  end.

End WithDecompressor.

Arguments Reader D : clear implicits.

(** A decompressor for examples: every [Read] fails with the same error and
    consumes nothing; it has neither [Close] nor [Reset]. *)
Definition failing (e : error) : Decompressor unit := {|
  d_Read := fun x s cap => (x, s, ([], Some e));
  d_Close := None;
  d_Reset := None
|}.

(** [&Reader{Source: src, Decompressor: ...}] for this decompressor. *)
Definition newReader (src : source) : Reader unit :=
  mkReader src (fun s => (tt, s)) None None (mkSuffixed [] 0 []).

End Reader.

(** * Properties *)

(** ** The reserved bits *)

Section RsvProperties.

Import RsvExtender.

Lemma RsvBits_Rsv (a b d : bool) : Ws.RsvBits (Ws.Rsv a b d) = (a, b, d).
Proof. destruct a, b, d; reflexivity. Qed.

(** A value of the 3-bit field with its three bits clear is zero. *)
Lemma is_rsv_clear (rsv : Z) :
  Ws.is_rsv rsv -> Ws.RsvBits rsv = (false, false, false) -> rsv = 0.
Proof.
  unfold Ws.is_rsv. intros Hr Hb.
  assert (Hc : rsv = 0 \/ rsv = 1 \/ rsv = 2 \/ rsv = 3 \/
               rsv = 4 \/ rsv = 5 \/ rsv = 6 \/ rsv = 7) by lia.
  repeat (destruct Hc as [-> | Hc]; [first [reflexivity | discriminate Hb] | ]).
  subst rsv. discriminate Hb.
Qed.

Lemma ExtendRead_bits (fseq rsv : Z) :
  r2 (fst (ExtendRead fseq rsv)) = r2 rsv /\
  r3 (fst (ExtendRead fseq rsv)) = r3 rsv.
Proof.
  unfold ExtendRead, r2, r3.
  destruct (Ws.RsvBits rsv) as [[a b] d] eqn:E.
  destruct (fseq >? 0), a; cbn [andb fst snd];
    rewrite ?E, ?RsvBits_Rsv; auto.
Qed.

Lemma ExtendWrite_bits (fseq rsv : Z) :
  r2 (fst (ExtendWrite fseq rsv)) = r2 rsv /\
  r3 (fst (ExtendWrite fseq rsv)) = r3 rsv.
Proof.
  unfold ExtendWrite, r2, r3.
  destruct (Ws.RsvBits rsv) as [[a b] d] eqn:E.
  destruct a, (fseq >? 0); cbn [fst snd];
    rewrite ?E, ?RsvBits_Rsv; auto.
Qed.

(** C6.  [ExtendRead] on a non-first fragment ([fseq > 0]) fails with the
    protocol violation when r1 is set and returns [rsv] unchanged with a
    nil error when r1 is clear; on the first fragment ([fseq = 0]) it
    returns, with a nil error, a byte whose r1 is clear and whose r2 and r3
    are those of the input. *)
Theorem ExtendRead_cases (fseq rsv : Z) :
  (fseq > 0 -> r1 rsv = true ->
     snd (ExtendRead fseq rsv) = Some errNonFirstFragmentEnabledBit /\
     is_protocol_violation (snd (ExtendRead fseq rsv)) = true) /\
  (fseq > 0 -> r1 rsv = false -> ExtendRead fseq rsv = (rsv, None)) /\
  (fseq = 0 ->
     exists out, ExtendRead fseq rsv = (out, None) /\
       r1 out = false /\ r2 out = r2 rsv /\ r3 out = r3 rsv).
Proof.
  unfold ExtendRead, r1, r2, r3.
  destruct (Ws.RsvBits rsv) as [[a b] d] eqn:E. cbn [fst snd].
  split; [ | split].
  - intros Hpos Ha. apply Z.gtb_gt in Hpos. rewrite Hpos. subst a.
    split; reflexivity.
  - intros Hpos Ha. apply Z.gtb_gt in Hpos. rewrite Hpos. subst a. reflexivity.
  - intros ->. cbn [Z.gtb Z.compare andb].
    eexists. split; [reflexivity | ].
    rewrite RsvBits_Rsv. cbn [fst snd]. auto.
Qed.

Lemma ExtendRead_cases_witness :
  snd (ExtendRead 2 4) = Some errNonFirstFragmentEnabledBit /\
  ExtendRead 2 3 = (3, None) /\
  exists out, ExtendRead 0 7 = (out, None) /\
    r1 out = false /\ r2 out = r2 7 /\ r3 out = r3 7.
Proof.
  destruct (ExtendRead_cases 2 4) as [Hset _].
  destruct (ExtendRead_cases 2 3) as [_ [Hclear _]].
  destruct (ExtendRead_cases 0 7) as [_ [_ Hfirst]].
  split; [ | split ].
  - apply Hset; [lia | reflexivity].
  - apply Hclear; [lia | reflexivity].
  - apply Hfirst. reflexivity.
Defined.

(** C7.  On fragment index 0, starting from reserved bits 000,
    [ExtendWrite] succeeds and sets r1, then [ExtendRead] succeeds and
    clears it: the bits read back are the bits written, and the byte read
    back is the original one whenever it is a value of the 3-bit field.
    Besides, whatever the branch taken, the byte returned by either
    function has the r2 and r3 of its input. *)
Theorem ExtendWrite_then_ExtendRead :
  (forall rsv, Ws.RsvBits rsv = (false, false, false) ->
     exists w r,
       ExtendWrite 0 rsv = (w, None) /\
       Ws.RsvBits w = (true, false, false) /\
       ExtendRead 0 w = (r, None) /\
       Ws.RsvBits r = Ws.RsvBits rsv /\
       (Ws.is_rsv rsv -> r = rsv)) /\
  (forall fseq rsv,
     r2 (fst (ExtendWrite fseq rsv)) = r2 rsv /\
     r3 (fst (ExtendWrite fseq rsv)) = r3 rsv) /\
  (forall fseq rsv,
     r2 (fst (ExtendRead fseq rsv)) = r2 rsv /\
     r3 (fst (ExtendRead fseq rsv)) = r3 rsv).
Proof.
  split; [ | split; [exact ExtendWrite_bits | exact ExtendRead_bits] ].
  intros rsv Hb.
  exists (Ws.Rsv true false false), (Ws.Rsv false false false).
  unfold ExtendWrite, ExtendRead. rewrite Hb. cbn [Z.gtb Z.compare].
  rewrite !RsvBits_Rsv. cbn [Z.gtb Z.compare andb].
  repeat split.
  intros Hr. symmetry. now apply is_rsv_clear.
Qed.

Lemma ExtendWrite_then_ExtendRead_witness :
  exists w r,
    ExtendWrite 0 0 = (w, None) /\
    Ws.RsvBits w = (true, false, false) /\
    ExtendRead 0 w = (r, None) /\
    Ws.RsvBits r = Ws.RsvBits 0 /\
    r = 0.
Proof.
  destruct ExtendWrite_then_ExtendRead as [Hround _].
  destruct (Hround 0 eq_refl) as (w & r & Hw & Hbw & Hr & Hbr & Hsame).
  exists w, r. repeat split; try assumption.
  apply Hsame. unfold Ws.is_rsv. lia.
Defined.

End RsvProperties.

(** ** Encoding and parsing the parameters *)

Section RoundTrip.

Import Wsflate.

Lemma explicit_bits_cases (w : Z) :
  explicit_bits w ->
  w = 8 \/ w = 9 \/ w = 10 \/ w = 11 \/ w = 12 \/ w = 13 \/ w = 14 \/ w = 15.
Proof. unfold explicit_bits. lia. Qed.

Ltac each_bits H :=
  apply explicit_bits_cases in H;
  repeat (destruct H as [-> | H]); [ .. | subst ].

(** C4 as stated fails for the server window: [Option] encodes
    ServerMaxWindowBits = 1 as the bare key, which [Parse] refuses. *)
Lemma bare_server_bits_do_not_round_trip :
  let p := mkParameters false false 1 0 in
  let opt := Httphead.mkOption ExtensionNameBytes [(serverMaxWindowBits, None)] in
  Option p = Ok opt /\
  Parse p opt =
    (zeroParameters, Some (ParamError "invalid" serverMaxWindowBits None)) /\
  ServerMaxWindowBits (fst (Parse p opt)) <> 1.
Proof. cbv zeta. repeat split. discriminate. Qed.

(** C4, amended.  For every v in 8..15 held in ServerMaxWindowBits or in
    ClientMaxWindowBits, whatever the two flags and whether the other
    window is unset or explicit too, [Option] succeeds and [Parse] of its
    result gives the parameters back, v included, without error; the same
    holds for the bare value 1 in ClientMaxWindowBits.  With the bare value
    1 in ServerMaxWindowBits, [Option] still succeeds but [Parse] rejects
    the bare key as invalid. *)
Theorem Option_Parse_round_trip (snct cnct : bool) (q : Parameters) :
  (forall v other, explicit_bits v -> other = 0 \/ other = 1 \/ explicit_bits other ->
     let p := mkParameters snct cnct v other in
     exists opt, Option p = Ok opt /\ Parse q opt = (p, None)) /\
  (forall v other, explicit_bits v -> other = 0 \/ explicit_bits other ->
     let p := mkParameters snct cnct other v in
     exists opt, Option p = Ok opt /\ Parse q opt = (p, None)) /\
  (forall other, other = 0 \/ explicit_bits other ->
     let p := mkParameters snct cnct other 1 in
     exists opt, Option p = Ok opt /\ Parse q opt = (p, None)) /\
  (forall other, other = 0 \/ other = 1 \/ explicit_bits other ->
     let p := mkParameters snct cnct 1 other in
     exists opt, Option p = Ok opt /\
       snd (Parse q opt) = Some (ParamError "invalid" serverMaxWindowBits None)).
Proof.
  repeat split.
  - intros v other Hv [-> | [-> | Ho]] p; subst p.
    + each_bits Hv; destruct snct, cnct; eexists; split; reflexivity.
    + each_bits Hv; destruct snct, cnct; eexists; split; reflexivity.
    + each_bits Hv; each_bits Ho; destruct snct, cnct;
        eexists; split; reflexivity.
  - intros v other Hv [-> | Ho] p; subst p.
    + each_bits Hv; destruct snct, cnct; eexists; split; reflexivity.
    + each_bits Hv; each_bits Ho; destruct snct, cnct;
        eexists; split; reflexivity.
  - intros other [-> | Ho] p; subst p.
    + destruct snct, cnct; eexists; split; reflexivity.
    + each_bits Ho; destruct snct, cnct; eexists; split; reflexivity.
  - intros other [-> | [-> | Ho]] p; subst p.
    + destruct snct, cnct; eexists; split; reflexivity.
    + destruct snct, cnct; eexists; split; reflexivity.
    + each_bits Ho; destruct snct, cnct; eexists; split; reflexivity.
Qed.

Lemma Option_Parse_round_trip_witness :
  (exists opt, Option (mkParameters true false 12 0) = Ok opt /\
     Parse zeroParameters opt = (mkParameters true false 12 0, None)) /\
  (exists opt, Option (mkParameters true false 0 9) = Ok opt /\
     Parse zeroParameters opt = (mkParameters true false 0 9, None)) /\
  (exists opt, Option (mkParameters true false 15 1) = Ok opt /\
     Parse zeroParameters opt = (mkParameters true false 15 1, None)).
Proof.
  destruct (Option_Parse_round_trip true false zeroParameters)
    as (Hserver & Hclient & Hbare & _).
  split; [ | split ].
  - apply (Hserver 12 0); [unfold explicit_bits; lia | now left].
  - apply (Hclient 9 0); [unfold explicit_bits; lia | now left].
  - apply (Hbare 15). right. unfold explicit_bits. lia.
Defined.

End RoundTrip.

(** ** Negotiation *)

Section NegotiateProperties.

Import Wsflate.

(** [decline_rule] spelled out as the three comparisons. *)
Lemma decline_rule_spec (desired offered : Parameters) :
  decline_rule desired offered = true <->
  (ServerMaxWindowBits offered > ServerMaxWindowBits desired \/
   ClientMaxWindowBits desired > ClientMaxWindowBits offered \/
   (ServerNoContextTakeover offered = true /\
    ServerNoContextTakeover desired = false)).
Proof.
  unfold decline_rule.
  rewrite !orb_true_iff, andb_true_iff, negb_true_iff, !Z.gtb_gt.
  tauto.
Qed.

Lemma Set_Name (opt : Httphead.Option) (key : string) (value : bytes) :
  Httphead.Name (Httphead.Set_ opt key value) = Httphead.Name opt.
Proof. reflexivity. Qed.

Lemma setBool_Name (opt : Httphead.Option) (key : string) (flag : bool) :
  Httphead.Name (setBool opt key flag) = Httphead.Name opt.
Proof. destruct flag; reflexivity. Qed.

Lemma setBits_Name (opt opt' : Httphead.Option) (key : string) (bits : Z) :
  setBits opt key bits = Ok opt' -> Httphead.Name opt' = Httphead.Name opt.
Proof.
  unfold setBits.
  destruct (bits =? 0); [intros [= <-]; reflexivity | ].
  destruct (bits =? 1); [intros [= <-]; reflexivity | ].
  destruct (negb (isValidBits bits)); [discriminate | ].
  destruct (nth_error windowBits (Z.to_nat (bits - 8)));
    [intros [= <-]; reflexivity | discriminate].
Qed.

(** The option built by [Option] always carries the extension name, so it
    is never the zero option. *)
Lemma Option_Name (p : Parameters) (opt : Httphead.Option) :
  Option p = Ok opt -> Httphead.Name opt = ExtensionNameBytes.
Proof.
  unfold Option, bind.
  destruct (setBits _ serverMaxWindowBits _) as [o1 | ] eqn:E1; [ | discriminate].
  destruct (setBits o1 clientMaxWindowBits _) as [o2 | ] eqn:E2; [ | discriminate].
  intros [= <-].
  apply setBits_Name in E1, E2.
  now rewrite E2, E1, !setBool_Name.
Qed.

Lemma accept_not_declined (p : Parameters) :
  (accept <- Option p ;; Ok (accept, @None error)) <> Ok declined.
Proof.
  unfold bind. destruct (Option p) as [o | m] eqn:E; [ | discriminate].
  intros [= ->]. apply Option_Name in E. discriminate E.
Qed.

(** What [Negotiate] does once the name matches, nothing was accepted yet
    and the offer parsed: one equation per outcome of the rules. *)
Lemma Negotiate_parsed (n : Extension) (opt : Httphead.Option)
      (offered : Parameters) :
  bytes_Equal (Httphead.Name opt) ExtensionNameBytes = true ->
  accepted n = false ->
  Parse (params n) opt = (offered, None) ->
  Negotiate n opt =
    if decline_rule (ext_Parameters n) offered
    then (mkExtension (ext_Parameters n) false offered, Ok declined)
    else (mkExtension (ext_Parameters n) true offered,
          accept <- Option (ext_Parameters n) ;; Ok (accept, None)).
Proof.
  intros Hname Hacc Hparse.
  unfold Negotiate, decline_rule.
  rewrite Hname, Hacc, Hparse. cbn [negb].
  unfold set_params, set_accepted.
  cbn [params ext_Parameters accepted]. rewrite Hacc.
  destruct (ServerMaxWindowBits offered >? _); [reflexivity | ].
  destruct (ClientMaxWindowBits _ >? _); [reflexivity | ].
  destruct (ServerNoContextTakeover offered && _); reflexivity.
Qed.

(** C1.  For an offer named "permessage-deflate" that parses without error,
    made to an extension that has not accepted yet, [Negotiate] declines
    (zero option, nil error) if and only if the offered
    ServerMaxWindowBits exceeds the desired one, or the desired
    ClientMaxWindowBits exceeds the offered one, or the offer has
    ServerNoContextTakeover while the desired parameters do not; otherwise
    it sets [accepted], keeps the parsed offer in [params] and hands back
    the outcome of [Option] on the desired parameters. *)
Theorem Negotiate_decision (n : Extension) (opt : Httphead.Option)
        (offered : Parameters) :
  bytes_Equal (Httphead.Name opt) ExtensionNameBytes = true ->
  accepted n = false ->
  Parse (params n) opt = (offered, None) ->
  let desired := ext_Parameters n in
  let rules :=
    ServerMaxWindowBits offered > ServerMaxWindowBits desired \/
    ClientMaxWindowBits desired > ClientMaxWindowBits offered \/
    (ServerNoContextTakeover offered = true /\
     ServerNoContextTakeover desired = false) in
  (snd (Negotiate n opt) = Ok declined <-> rules) /\
  (~ rules ->
     accepted (fst (Negotiate n opt)) = true /\
     params (fst (Negotiate n opt)) = offered /\
     snd (Negotiate n opt) =
       (accept <- Option desired ;; Ok (accept, None))).
Proof.
  intros Hname Hacc Hparse desired rules.
  rewrite (Negotiate_parsed n opt offered Hname Hacc Hparse).
  fold desired.
  assert (Hrules : decline_rule desired offered = true <-> rules)
    by apply decline_rule_spec.
  destruct (decline_rule desired offered); cbn [fst snd].
  - split; [ | intros Hno; exfalso; apply Hno; now apply Hrules].
    split; [intros _; now apply Hrules | reflexivity].
  - split; [ | intros _; repeat split].
    split.
    + intros H. now apply accept_not_declined in H.
    + intros H. apply Hrules in H. discriminate H.
Qed.

Lemma Negotiate_decision_witness :
  let wants10 := mkExtension (mkParameters false false 10 0) false zeroParameters in
  let offer15 := Httphead.mkOption ExtensionNameBytes
                   [(serverMaxWindowBits, Some "15")] in
  let offer9 := Httphead.mkOption ExtensionNameBytes
                  [(serverMaxWindowBits, Some "9")] in
  snd (Negotiate wants10 offer15) = Ok declined /\
  accepted (fst (Negotiate wants10 offer9)) = true.
Proof.
  intros wants10 offer15 offer9. split.
  - apply (Negotiate_decision wants10 offer15 (mkParameters false false 15 0));
      [reflexivity | reflexivity | reflexivity | ].
    left. reflexivity.
  - apply (Negotiate_decision wants10 offer9 (mkParameters false false 9 0));
      [reflexivity | reflexivity | reflexivity | ].
    cbn. intros [H | [H | [H _]]]; try discriminate H.
Defined.

(** C2 as stated fails: an offer whose second parameter is unknown leaves
    the parameter parsed before it in [params], so [Accepted] no longer
    returns what it returned before the call. *)
Lemma Negotiate_parse_error_changes_observed :
  let n := mkExtension zeroParameters false zeroParameters in
  let opt := Httphead.mkOption ExtensionNameBytes
               [(serverNoContextTakeover, None); ("foo", None)] in
  bytes_Equal (Httphead.Name opt) ExtensionNameBytes = true /\
  snd (Parse (params n) opt) = Some (ParamError "unexpected" "foo" None) /\
  snd (Negotiate n opt) =
    Ok (Httphead.zero, Some (ParamError "unexpected" "foo" None)) /\
  Accepted n = (zeroParameters, false) /\
  Accepted (fst (Negotiate n opt)) = (mkParameters true false 0 0, false) /\
  Accepted (fst (Negotiate n opt)) <> Accepted n.
Proof.
  cbv zeta. repeat split; try reflexivity. discriminate.
Qed.

(** C2, amended.  For an extension that has not accepted yet and an offer
    named "permessage-deflate" whose parameters fail to parse, [Negotiate]
    returns the zero option with that parse error and leaves [accepted]
    false and the desired parameters as they were; the observed parameters
    are overwritten with what [Parse] left in its receiver. *)
Theorem Negotiate_parse_error (n : Extension) (opt : Httphead.Option)
        (partial : Parameters) (e : error) :
  bytes_Equal (Httphead.Name opt) ExtensionNameBytes = true ->
  accepted n = false ->
  Parse (params n) opt = (partial, Some e) ->
  snd (Negotiate n opt) = Ok (Httphead.zero, Some e) /\
  Accepted (fst (Negotiate n opt)) = (partial, false) /\
  ext_Parameters (fst (Negotiate n opt)) = ext_Parameters n.
Proof.
  intros Hname Hacc Hparse.
  unfold Negotiate, Accepted. rewrite Hname, Hacc, Hparse.
  cbn [negb fst snd]. unfold set_params.
  cbn [params accepted ext_Parameters]. rewrite Hacc. auto.
Qed.

Lemma Negotiate_parse_error_witness :
  let n := mkExtension zeroParameters false (mkParameters false true 12 1) in
  let opt := Httphead.mkOption ExtensionNameBytes
               [(serverNoContextTakeover, None); (serverMaxWindowBits, None)] in
  snd (Negotiate n opt) =
    Ok (Httphead.zero, Some (ParamError "invalid" serverMaxWindowBits None)) /\
  Accepted (fst (Negotiate n opt)) = (mkParameters true false 0 0, false) /\
  ext_Parameters (fst (Negotiate n opt)) = zeroParameters.
Proof.
  intros n opt.
  apply (Negotiate_parse_error n opt (mkParameters true false 0 0)
           (ParamError "invalid" serverMaxWindowBits None));
    reflexivity.
Defined.

(** C5.  Once [accepted] is true, any call of [Negotiate], and any run of
    such calls, returns the zero option with a nil error and leaves the
    extension, hence what [Accepted] returns, untouched; [accepted] stays
    true under [Negotiate] and becomes false under [Reset]. *)
Theorem Negotiate_after_accept (n : Extension) :
  accepted n = true ->
  (forall opt, Negotiate n opt = (n, Ok declined)) /\
  (forall opt, Accepted (fst (Negotiate n opt)) = Accepted n) /\
  (forall opts,
     NegotiateAll n opts = (n, repeat (Ok declined) (List.length opts))) /\
  Accepted (Reset n) = (zeroParameters, false).
Proof.
  intros Hacc.
  assert (Hone : forall opt, Negotiate n opt = (n, Ok declined)).
  { intros opt. unfold Negotiate. rewrite Hacc.
    destruct (negb (bytes_Equal _ _)); reflexivity. }
  repeat split.
  - exact Hone.
  - intros opt. now rewrite Hone.
  - intros opts. induction opts as [ | opt rest IH]; [reflexivity | ].
    cbn [NegotiateAll List.length repeat]. now rewrite Hone, IH.
Qed.

Lemma Negotiate_after_accept_witness :
  let n := mkExtension zeroParameters true (mkParameters false false 0 1) in
  let second := Httphead.mkOption ExtensionNameBytes
                  [(serverNoContextTakeover, None)] in
  Negotiate n second = (n, Ok declined) /\
  Accepted (Reset n) = (zeroParameters, false).
Proof.
  intros n second.
  destruct (Negotiate_after_accept n eq_refl) as (Hone & _ & _ & Hreset).
  split; [apply Hone | exact Hreset].
Defined.

(** C10.  For an extension that has not accepted yet and an offer named
    "permessage-deflate" that parses but is turned down by the rules, the
    parsed offer replaces the observed parameters: [Accepted] then returns
    it together with false, whatever was observed before. *)
Theorem Negotiate_declined_observed (n : Extension) (opt : Httphead.Option)
        (offered : Parameters) :
  bytes_Equal (Httphead.Name opt) ExtensionNameBytes = true ->
  accepted n = false ->
  Parse (params n) opt = (offered, None) ->
  decline_rule (ext_Parameters n) offered = true ->
  snd (Negotiate n opt) = Ok declined /\
  Accepted (fst (Negotiate n opt)) = (offered, false).
Proof.
  intros Hname Hacc Hparse Hrule.
  rewrite (Negotiate_parsed n opt offered Hname Hacc Hparse), Hrule.
  split; reflexivity.
Qed.

Lemma Negotiate_declined_observed_witness :
  let n := mkExtension (mkParameters false false 10 0) false
                       (mkParameters true true 0 0) in
  let opt := Httphead.mkOption ExtensionNameBytes
               [(serverMaxWindowBits, Some "15")] in
  snd (Negotiate n opt) = Ok declined /\
  Accepted (fst (Negotiate n opt)) = (mkParameters false false 15 0, false).
Proof.
  intros n opt.
  apply (Negotiate_declined_observed n opt (mkParameters false false 15 0));
    reflexivity.
Defined.

End NegotiateProperties.

Section ParseProperties.

Import Wsflate.

Lemma is_seen_mark_same (e : parseEnv) (f : Z) :
  f <> 0 -> is_seen (mark_seen e f) f = true.
Proof.
  intros Hf. unfold is_seen, mark_seen, with_seen. cbn [env_seen].
  rewrite Z.land_lor_distr_l, Z.land_diag.
  apply negb_true_iff, Z.eqb_neq. intros H.
  apply Z.lor_eq_0_iff in H. tauto.
Qed.

Lemma is_seen_mark_other (e : parseEnv) (f g : Z) :
  Z.land f g = 0 -> is_seen (mark_seen e f) g = is_seen e g.
Proof.
  intros Hfg. unfold is_seen, mark_seen, with_seen. cbn [env_seen].
  now rewrite Z.land_lor_distr_l, Hfg, Z.lor_0_r.
Qed.

Lemma recognized_cases (key : string) :
  recognized key = true ->
  key = clientMaxWindowBits \/ key = serverMaxWindowBits \/
  key = clientNoContextTakeover \/ key = serverNoContextTakeover.
Proof.
  unfold recognized. rewrite !orb_true_iff, !String.eqb_eq. tauto.
Qed.

(** Evaluates the comparisons of key constants and the flags. *)
Ltac eval_keys :=
  change clientMaxWindowBitsSeen with 1 in *;
  change serverMaxWindowBitsSeen with 2 in *;
  change clientNoContextTakeoverSeen with 4 in *;
  change serverNoContextTakeoverSeen with 8 in *;
  repeat match goal with
    | |- context [flag_of ?k] =>
        let r := eval vm_compute in (flag_of k) in change (flag_of k) with r
    | H : context [flag_of ?k] |- _ =>
        let r := eval vm_compute in (flag_of k) in
        change (flag_of k) with r in H
    | |- context [String.eqb ?a ?b] =>
        let r := eval vm_compute in (String.eqb a b) in
        change (String.eqb a b) with r
    end.

Ltac seen_step :=
  repeat match goal with
    | |- context [is_seen (with_p ?e ?p) ?f] =>
        change (is_seen (with_p e p) f) with (is_seen e f)
    | |- context [is_seen (mark_seen ?e ?f) ?f] =>
        rewrite (is_seen_mark_same e f) by discriminate
    | |- context [is_seen (mark_seen ?e ?f) ?g] =>
        rewrite (is_seen_mark_other e f g) by reflexivity
    | H : is_seen ?e ?f = _ |- context [is_seen ?e ?f] => rewrite H
    end.

Ltac count_step L :=
  let key := fresh "key" in
  let Hk := fresh "Hk" in
  split; [reflexivity | ];
  intros key Hk; apply recognized_cases in Hk;
  destruct Hk as [-> | [-> | [-> | ->]]];
  unfold counted; cbn [fst snd]; rewrite ?L; eval_keys; seen_step;
  cbn [andb orb negb Nat.b2n];
  repeat match goal with
    | |- context [is_seen ?e ?f] => destruct (is_seen e f)
    end;
  cbn [Nat.b2n]; lia.

Lemma parseParam_continue (e e' : parseEnv) (k : string) (v : bytes) :
  parseParam e k v = (e', true) ->
  env_err e' = env_err e /\
  forall key, recognized key = true ->
    (Nat.b2n (counted key (k, v)) + Nat.b2n (is_seen e (flag_of key))
     <= Nat.b2n (is_seen e' (flag_of key)))%nat.
Proof.
  unfold parseParam.
  destruct (String.eqb k clientMaxWindowBits) eqn:K1.
  { apply String.eqb_eq in K1. subst k.
    destruct (len v =? 0) eqn:L; [intros [= <-]; count_step L | ].
    eval_keys. destruct (is_seen e 1) eqn:S; [discriminate | ].
    destruct (bitsFromASCII v) as [b [ | ]]; [ | discriminate].
    intros [= <-]. count_step L. }
  destruct (String.eqb k serverMaxWindowBits) eqn:K2.
  { apply String.eqb_eq in K2. subst k.
    destruct (len v =? 0) eqn:L; [discriminate | ].
    eval_keys. destruct (is_seen e 2) eqn:S; [discriminate | ].
    destruct (bitsFromASCII v) as [b [ | ]]; [ | discriminate].
    intros [= <-]. count_step L. }
  destruct (String.eqb k clientNoContextTakeover) eqn:K3.
  { apply String.eqb_eq in K3. subst k.
    destruct (len v >? 0) eqn:L; [discriminate | ].
    eval_keys. destruct (is_seen e 4) eqn:S; [discriminate | ].
    intros [= <-]. count_step L. }
  destruct (String.eqb k serverNoContextTakeover) eqn:K4.
  { apply String.eqb_eq in K4. subst k.
    destruct (len v >? 0) eqn:L; [discriminate | ].
    eval_keys. destruct (is_seen e 8) eqn:S; [discriminate | ].
    intros [= <-]. count_step L. }
  discriminate.
Qed.

Lemma parseParam_stop (e e' : parseEnv) (k : string) (v : bytes) :
  parseParam e k v = (e', false) -> env_err e' <> None.
Proof.
  unfold parseParam.
  repeat match goal with
    | |- context [if ?c then _ else _] => destruct c
    | |- context [bitsFromASCII ?x] => destruct (bitsFromASCII x) as [? [ | ]]
    end;
    cbn [negb]; intros H; try discriminate H; injection H as <-; discriminate.
Qed.

Lemma counted_value_form (key : string) (v : bytes) :
  value_form key v = true -> counted key (key, v) = true.
Proof.
  unfold value_form, counted. cbn [fst snd]. rewrite String.eqb_refl.
  destruct (String.eqb key clientMaxWindowBits); cbn [orb andb negb]; auto.
Qed.

Lemma parseParam_duplicate (e : parseEnv) (key : string) (v : bytes) :
  recognized key = true ->
  value_form key v = true ->
  is_seen e (flag_of key) = true ->
  parseParam e key v = (with_err e (paramError "duplicate" key v), false).
Proof.
  intros Hk Hv Hs. apply recognized_cases in Hk.
  destruct Hk as [-> | [-> | [-> | ->]]];
    unfold value_form in Hv; unfold parseParam; eval_keys;
    cbn [orb] in Hv |- *.
  - apply negb_true_iff in Hv. now rewrite Hv, Hs.
  - apply negb_true_iff in Hv. now rewrite Hv, Hs.
  - apply Z.eqb_eq in Hv. rewrite Hv. cbn [Z.gtb Z.compare]. now rewrite Hs.
  - apply Z.eqb_eq in Hv. rewrite Hv. cbn [Z.gtb Z.compare]. now rewrite Hs.
Qed.

Lemma occurrences_cons (key : string) (kv : string * bytes)
      (ps : list (string * bytes)) :
  occurrences key (kv :: ps) =
    (Nat.b2n (counted key kv) + occurrences key ps)%nat.
Proof.
  unfold occurrences. cbn [filter].
  destruct (counted key kv); reflexivity.
Qed.

Lemma occurrences_app (key : string) (ps qs : list (string * bytes)) :
  occurrences key (ps ++ qs) = (occurrences key ps + occurrences key qs)%nat.
Proof.
  unfold occurrences. now rewrite filter_app, length_app.
Qed.

(** While no error is raised, each counted occurrence of a key finds its
    bit of [seen] clear and leaves it set. *)
Lemma ForEach_no_error (ps : list (string * bytes)) :
  forall e,
    env_err e = None ->
    env_err (Httphead.ForEach ps parseParam e) = None ->
    forall key, recognized key = true ->
      (occurrences key ps + Nat.b2n (is_seen e (flag_of key))
       <= Nat.b2n (is_seen (Httphead.ForEach ps parseParam e) (flag_of key)))%nat.
Proof.
  induction ps as [ | [k v] rest IH]; intros e He Hend key Hk.
  - cbn. lia.
  - cbn [Httphead.ForEach] in *.
    destruct (parseParam e k v) as [e' [ | ]] eqn:P.
    + destruct (parseParam_continue _ _ _ _ P) as [Herr Hstep].
      specialize (Hstep key Hk).
      specialize (IH e' (eq_trans Herr He) Hend key Hk).
      rewrite occurrences_cons. lia.
    + now apply parseParam_stop in P.
Qed.

Lemma ForEach_app (ps qs : list (string * bytes)) :
  forall e,
    env_err (Httphead.ForEach ps parseParam e) = None ->
    Httphead.ForEach (ps ++ qs) parseParam e =
    Httphead.ForEach qs parseParam (Httphead.ForEach ps parseParam e).
Proof.
  induction ps as [ | [k v] rest IH]; intros e Hend; [reflexivity | ].
  cbn [Httphead.ForEach app] in *.
  destruct (parseParam e k v) as [e' [ | ]] eqn:P.
  - now apply IH.
  - now apply parseParam_stop in P.
Qed.

Lemma b2n_le_1 (b : bool) : (Nat.b2n b <= 1)%nat.
Proof. destruct b; cbn; lia. Qed.

(** C3 as stated fails: the repeated key is not reached when an earlier
    pair is refused, and the error is then the earlier one. *)
Lemma Parse_repeated_key_other_error :
  let opt := Httphead.mkOption ExtensionNameBytes
               [(serverNoContextTakeover, None); ("foo", None);
                (serverNoContextTakeover, None)] in
  recognized serverNoContextTakeover = true /\
  occurrences serverNoContextTakeover (Httphead.Parameters opt) = 2%nat /\
  snd (Parse zeroParameters opt) = Some (ParamError "unexpected" "foo" None) /\
  reason_of (snd (Parse zeroParameters opt)) <> Some "duplicate".
Proof. cbv zeta. repeat split. discriminate. Qed.

(** C3, amended.  When [server_max_window_bits],
    [client_no_context_takeover] or [server_no_context_takeover] occurs
    twice or more in the option, or [client_max_window_bits] occurs twice
    or more with a value, [Parse] returns a non-nil error.  That error is
    the "duplicate" one, carrying the key and the value of the repeated
    occurrence, when both occurrences have the value form of their key and
    the pairs before the second one parse without error. *)
Theorem Parse_repeated_key (q : Parameters) (name : bytes) :
  (forall ps key,
     recognized key = true ->
     (2 <= occurrences key ps)%nat ->
     snd (Parse q (Httphead.mkOption name ps)) <> None) /\
  (forall pre mid post key v1 v2,
     recognized key = true ->
     value_form key v1 = true ->
     value_form key v2 = true ->
     snd (Parse q (Httphead.mkOption name (pre ++ (key, v1) :: mid))) = None ->
     snd (Parse q (Httphead.mkOption name
                     (pre ++ (key, v1) :: mid ++ (key, v2) :: post)))
       = Some (ParamError "duplicate" key v2)).
Proof.
  unfold Parse. cbn [snd Httphead.Parameters]. split.
  - intros ps key Hk Htwice Hnone.
    pose proof (ForEach_no_error ps (mkEnv zeroParameters 0 None) eq_refl
                  Hnone key Hk) as Hle.
    pose proof (b2n_le_1 (is_seen (Httphead.ForEach ps parseParam
                  (mkEnv zeroParameters 0 None)) (flag_of key))).
    lia.
  - intros pre mid post key v1 v2 Hk Hv1 Hv2 Hnone.
    replace (pre ++ (key, v1) :: mid ++ (key, v2) :: post)%list
      with ((pre ++ (key, v1) :: mid) ++ (key, v2) :: post)%list
      by now rewrite <- app_assoc.
    rewrite ForEach_app by exact Hnone.
    pose proof (ForEach_no_error _ (mkEnv zeroParameters 0 None) eq_refl
                  Hnone key Hk) as Hle.
    rewrite occurrences_app, occurrences_cons in Hle.
    rewrite (counted_value_form _ _ Hv1) in Hle. cbn [Nat.b2n] in Hle.
    set (e1 := Httphead.ForEach (pre ++ (key, v1) :: mid) parseParam _) in *.
    assert (Hseen : is_seen e1 (flag_of key) = true).
    { destruct (is_seen e1 (flag_of key)); [reflexivity | cbn in Hle; lia]. }
    cbn [Httphead.ForEach].
    now rewrite (parseParam_duplicate e1 key v2 Hk Hv2 Hseen).
Qed.

Lemma Parse_repeated_key_witness :
  snd (Parse zeroParameters
         (Httphead.mkOption ExtensionNameBytes
            [(serverMaxWindowBits, Some "10"); (serverMaxWindowBits, None)]))
    <> None /\
  snd (Parse zeroParameters
         (Httphead.mkOption ExtensionNameBytes
            [(clientNoContextTakeover, None);
             (clientMaxWindowBits, Some "10");
             (clientMaxWindowBits, Some "12")]))
    = Some (ParamError "duplicate" clientMaxWindowBits (Some "12")).
Proof.
  destruct (Parse_repeated_key zeroParameters ExtensionNameBytes)
    as [Herror Hduplicate].
  split.
  - apply Herror with (key := serverMaxWindowBits); [reflexivity | ].
    cbn. lia.
  - apply (Hduplicate [(clientNoContextTakeover, None)] [] []
                      clientMaxWindowBits (Some "10") (Some "12"));
      reflexivity.
Defined.

End ParseProperties.

(** ** The stream writer *)

Section WriterProperties.

Import Writer.

Context {C : Type} {I : Compressor C}.

Lemma tail4_eqb_eq (a b : tail4) : tail4_eqb a b = true <-> a = b.
Proof.
  destruct a as [[[a0 a1] a2] a3], b as [[[b0 b1] b2] b3].
  unfold tail4_eqb. rewrite !andb_true_iff. split.
  - intros [[[H0 H1] H2] H3].
    apply byte_dec_bl in H0, H1, H2, H3. now subst.
  - intros [= -> -> -> ->]. now rewrite !byte_dec_lb.
Qed.

Lemma init_err (w : Writer C) : err (fst (init w)) = err w.
Proof.
  unfold init. destruct (c w); [reflexivity | ].
  cbn. destruct (NewCompressor w _). reflexivity.
Qed.

Lemma init_initialised (w : Writer C) (x : C) :
  c w = Some x -> init w = (w, x).
Proof. unfold init. now intros ->. Qed.

(** What [checkTail] leaves in [err] when no error is pending. *)
Lemma checkTail_err (w : Writer C) :
  err w = None ->
  (buf (w_cbuf w) = compressionTail -> err (checkTail w) = None) /\
  (buf (w_cbuf w) <> compressionTail ->
     err (checkTail w) = Some (BadTailError (buf (w_cbuf w)) compressionTail)).
Proof.
  intros He. unfold checkTail. rewrite He.
  destruct (tail4_eqb (buf (w_cbuf w)) compressionTail) eqn:T; cbn [negb].
  - apply tail4_eqb_eq in T. split; [auto | congruence].
  - split; [ | reflexivity].
    intros H. apply tail4_eqb_eq in H. congruence.
Qed.

(** C8.  On a writer with no pending error, when the compressor's own
    [Flush] (or [Close], when it has one) succeeds, [Flush] and [Close]
    return nil if the 4 bytes then held in the delay buffer are
    00 00 FF FF and the bad-compressor error otherwise; a compressor
    without [Close] is not called and the bytes already held are checked.
    The error returned is also the one stored. *)
Theorem Flush_Close_check_tail (w : Writer C) :
  err w = None ->
  let w0 := fst (init w) in
  let x := snd (init w) in
  (forall x' cb',
     c_Flush x (w_cbuf w0) = (x', cb', None) ->
     (buf cb' = compressionTail -> snd (Flush w) = None) /\
     (buf cb' <> compressionTail ->
        snd (Flush w) = Some (BadTailError (buf cb') compressionTail))) /\
  (forall close x' cb',
     c_Close = Some close ->
     close x (w_cbuf w0) = (x', cb', None) ->
     (buf cb' = compressionTail -> snd (Close w) = None) /\
     (buf cb' <> compressionTail ->
        snd (Close w) = Some (BadTailError (buf cb') compressionTail))) /\
  (c_Close = None ->
     (buf (w_cbuf w0) = compressionTail -> snd (Close w) = None) /\
     (buf (w_cbuf w0) <> compressionTail ->
        snd (Close w) =
          Some (BadTailError (buf (w_cbuf w0)) compressionTail))) /\
  err (fst (Flush w)) = snd (Flush w) /\
  err (fst (Close w)) = snd (Close w).
Proof.
  intros He w0 x.
  pose proof (init_err w) as Hi. fold w0 in Hi. rewrite He in Hi.
  unfold Flush, Close. rewrite He.
  destruct (init w) as [w1 x1] eqn:Ei. cbn [fst snd] in w0, x.
  subst w0 x. rewrite Hi.
  split; [ | split; [ | split; [ | split] ] ].
  - intros x' cb' Hf. rewrite Hf. cbn [snd].
    apply (checkTail_err (set_err (set_c (set_cbuf w1 cb') (Some x')) None)).
    reflexivity.
  - intros close x' cb' Hc Hcl. rewrite Hc, Hcl. cbn [snd].
    apply (checkTail_err (set_err (set_c (set_cbuf w1 cb') (Some x')) None)).
    reflexivity.
  - intros Hc. rewrite Hc. cbn [snd]. now apply checkTail_err.
  - destruct (c_Flush x1 (w_cbuf w1)) as [[x' cb'] e]. reflexivity.
  - reflexivity.
Qed.

(** A poisoned writer answers every call with its error, after [init] at
    most. *)
Lemma poisoned_perform (w : Writer C) (e : error) (k : call) :
  err w = Some e ->
  perform w k =
    (match k with CallClose => w | _ => fst (init w) end, Some e).
Proof.
  intros He. pose proof (init_err w) as Hi. rewrite He in Hi.
  destruct k as [p | | ]; cbn [perform]; unfold Write, Flush, Close.
  - destruct (init w) as [w1 x1]. cbn [fst] in *. now rewrite Hi.
  - destruct (init w) as [w1 x1]. cbn [fst] in *. now rewrite Hi.
  - now rewrite He.
Qed.

Lemma poisoned_perform_err (w : Writer C) (e : error) (k : call) :
  err w = Some e -> err (fst (perform w k)) = Some e.
Proof.
  intros He. rewrite (poisoned_perform w e k He). cbn [fst].
  destruct k; [ | | exact He]; now rewrite init_err.
Qed.

Lemma poisoned_perform_same (w : Writer C) (e : error) (k : call) :
  err w = Some e -> c w <> None -> fst (perform w k) = w.
Proof.
  intros He Hc. rewrite (poisoned_perform w e k He). cbn [fst].
  destruct (c w) as [x | ] eqn:E; [ | congruence].
  destruct k; [ | | reflexivity]; now rewrite (init_initialised w x E).
Qed.

Lemma poisoned_performAll (e : error) (ks : list call) :
  forall w : Writer C,
    err w = Some e ->
    snd (performAll w ks) = repeat (Some e) (List.length ks) /\
    err (fst (performAll w ks)) = Some e /\
    (c w <> None -> fst (performAll w ks) = w).
Proof.
  induction ks as [ | k rest IH]; intros w He; [cbn; auto | ].
  cbn [performAll List.length repeat].
  pose proof (poisoned_perform_err w e k He) as He'.
  pose proof (poisoned_perform_same w e k He) as Hsame.
  rewrite (poisoned_perform w e k He) in *. cbn [fst] in He', Hsame.
  destruct (IH _ He') as (Hres & Herr & Hkeep).
  destruct (performAll _ rest) as [w' es]. cbn [fst snd] in *.
  repeat split; [congruence | assumption | ].
  intros Hc. specialize (Hsame Hc). rewrite Hsame in Hkeep. auto.
Qed.

End WriterProperties.

Section WriterPoisoned.

Import Writer.

Context {C : Type} {I : Compressor C}.

Lemma poisoned_any_compressor (e : error) (I' : Compressor C)
      (ks : list call) :
  forall w : Writer C,
    err w = Some e ->
    @performAll C I' w ks = @performAll C I w ks.
Proof.
  induction ks as [ | k rest IH]; intros w He; [reflexivity | ].
  cbn [performAll].
  rewrite (@poisoned_perform C I' w e k He), (@poisoned_perform C I w e k He).
  rewrite IH; [reflexivity | ].
  pose proof (@poisoned_perform_err C I w e k He) as He'.
  now rewrite (@poisoned_perform C I w e k He) in He'.
Qed.

(** C9.  A writer whose stored error is [e] answers [Write], [Flush] and
    [Close] with [e]: the compressor's methods are not called (the run is
    the same whatever they are), the error stays stored over any run of
    calls, and an initialised writer is left exactly as it was.  [Reset]
    sets the stored error to nil. *)
Theorem poisoned_until_Reset (w : Writer C) (e : error) :
  err w = Some e ->
  (forall p, Write w p = (fst (init w), (0, Some e))) /\
  Flush w = (fst (init w), Some e) /\
  Close w = (w, Some e) /\
  (forall ks,
     snd (performAll w ks) = repeat (Some e) (List.length ks) /\
     err (fst (performAll w ks)) = Some e /\
     (c w <> None -> fst (performAll w ks) = w)) /\
  (forall (I' : Compressor C) ks,
     @performAll C I' w ks = @performAll C I w ks) /\
  (forall dest, err (Reset w dest) = None).
Proof.
  intros He. pose proof (init_err w) as Hi. rewrite He in Hi.
  split; [ | split; [ | split; [ | split; [ | split] ] ] ].
  - intros p. unfold Write.
    destruct (init w) as [w1 x1]. cbn [fst] in *. now rewrite Hi.
  - unfold Flush.
    destruct (init w) as [w1 x1]. cbn [fst] in *. now rewrite Hi.
  - unfold Close. now rewrite He.
  - intros ks. now apply poisoned_performAll.
  - intros I' ks. now apply (poisoned_any_compressor e).
  - intros dest. unfold Reset.
    destruct (init w) as [w1 x1].
    destruct c_Reset as [reset | ].
    + destruct (reset x1 _). reflexivity.
    + destruct (NewCompressor _ _). reflexivity.
Qed.

End WriterPoisoned.

Section WriterExamples.

Import Writer.

Lemma Flush_Close_check_tail_witness :
  let good := storing [x00; x00; xff; xff] in
  let bad := storing [x00; x01; xff; xff] in
  let w := fst (@Write unit good (newWriter []) [x61; x62; x63]) in
  snd (@Flush unit good w) = None /\
  snd (@Flush unit bad w) =
    Some (BadTailError (x00, x01, xff, xff) compressionTail) /\
  snd (@Close unit (storingCloser [x00; x00; xff; xff]) w) = None /\
  snd (@Close unit good w) =
    Some (BadTailError (x61, x62, x63, x00) compressionTail).
Proof.
  intros good bad w.
  pose proof (@Flush_Close_check_tail unit good w eq_refl) as Hgood.
  pose proof (@Flush_Close_check_tail unit bad w eq_refl) as Hbad.
  pose proof (@Flush_Close_check_tail unit
                (storingCloser [x00; x00; xff; xff]) w eq_refl) as Hcloser.
  cbv zeta in Hgood, Hbad, Hcloser.
  destruct Hgood as (Hflush & _ & Hnoclose & _).
  destruct Hbad as (Hflush' & _).
  destruct Hcloser as (_ & Hclose & _).
  split; [ | split; [ | split] ].
  - edestruct Hflush as [Hnil _]; [reflexivity | ].
    apply Hnil. reflexivity.
  - edestruct Hflush' as [_ Herr]; [reflexivity | ].
    apply Herr. discriminate.
  - edestruct Hclose as [Hnil _]; [reflexivity | reflexivity | ].
    apply Hnil. reflexivity.
  - destruct (Hnoclose eq_refl) as [_ Herr].
    apply Herr. discriminate.
Defined.

Lemma poisoned_until_Reset_witness :
  let bad := storing [x00; x01; xff; xff] in
  let e := BadTailError (x00, x01, xff, xff) compressionTail in
  let w := fst (@Flush unit bad (newWriter [])) in
  snd (@performAll unit bad w [CallWrite [x61]; CallFlush; CallClose]) =
    [Some e; Some e; Some e] /\
  fst (@performAll unit bad w [CallWrite [x61]; CallFlush; CallClose]) = w /\
  err (@Reset unit bad w []) = None.
Proof.
  intros bad e w.
  destruct (@poisoned_until_Reset unit bad w e eq_refl)
    as (_ & _ & _ & Hrun & _ & Hreset).
  destruct (Hrun [CallWrite [x61]; CallFlush; CallClose])
    as (Hres & _ & Hkeep).
  split; [exact Hres | split; [ | apply Hreset] ].
  apply Hkeep. discriminate.
Defined.

End WriterExamples.

(** * Further properties *)

(** ** The reserved bits, both directions *)

Section RsvFurther.

Import RsvExtender.

(** A value of the 3-bit field is rebuilt from its three bits. *)
Lemma Rsv_RsvBits (rsv : Z) :
  Ws.is_rsv rsv -> Ws.Rsv (r1 rsv) (r2 rsv) (r3 rsv) = rsv.
Proof.
  unfold Ws.is_rsv. intros Hr.
  assert (Hc : rsv = 0 \/ rsv = 1 \/ rsv = 2 \/ rsv = 3 \/
               rsv = 4 \/ rsv = 5 \/ rsv = 6 \/ rsv = 7) by lia.
  repeat (destruct Hc as [-> | Hc]; [reflexivity | ]).
  subst rsv. reflexivity.
Qed.

Lemma RsvBits_projections (rsv : Z) :
  Ws.RsvBits rsv = (r1 rsv, r2 rsv, r3 rsv).
Proof. unfold r1, r2, r3. now destruct (Ws.RsvBits rsv) as [[a b] d]. Qed.

(** X1.  [ExtendWrite] fails exactly when r1 is already set, whatever the
    fragment index, and then hands the byte back untouched; with r1 clear a
    later fragment passes through unchanged and a first fragment (or a
    negative index) gets r1 set with r2 and r3 kept. *)
Theorem ExtendWrite_cases (fseq rsv : Z) :
  (snd (ExtendWrite fseq rsv) <> None <-> r1 rsv = true) /\
  (r1 rsv = true ->
     ExtendWrite fseq rsv =
       (rsv, Some (Errorf "wsflate: compression bit is already set"))) /\
  (r1 rsv = false -> fseq > 0 -> ExtendWrite fseq rsv = (rsv, None)) /\
  (r1 rsv = false -> fseq <= 0 ->
     exists out, ExtendWrite fseq rsv = (out, None) /\
       Ws.RsvBits out = (true, r2 rsv, r3 rsv)).
Proof.
  unfold ExtendWrite. rewrite (RsvBits_projections rsv).
  destruct (r1 rsv) eqn:E1.
  - split; [split; [reflexivity | discriminate] | ].
    split; [reflexivity | split; discriminate].
  - split; [split; [ | discriminate] | ].
    { destruct (fseq >? 0); intros H; now contradiction H. }
    split; [discriminate | split].
    + intros _ Hpos. apply Z.gtb_gt in Hpos. now rewrite Hpos.
    + intros _ Hle.
      assert (Hf : (fseq >? 0) = false).
      { rewrite Z.gtb_ltb. apply Z.ltb_ge. lia. }
      rewrite Hf. eexists. split; [reflexivity | apply RsvBits_Rsv].
Qed.

Lemma ExtendWrite_cases_witness :
  ExtendWrite 3 5 = (5, Some (Errorf "wsflate: compression bit is already set")) /\
  ExtendWrite 3 2 = (2, None) /\
  exists out, ExtendWrite (-1) 2 = (out, None) /\
    Ws.RsvBits out = (true, r2 2, r3 2).
Proof.
  destruct (ExtendWrite_cases 3 5) as (_ & Hset & _).
  destruct (ExtendWrite_cases 3 2) as (_ & _ & Hlater & _).
  destruct (ExtendWrite_cases (-1) 2) as (_ & _ & _ & Hfirst).
  split; [apply Hset; reflexivity | split].
  - apply Hlater; [reflexivity | lia].
  - apply Hfirst; [reflexivity | lia].
Defined.

(** X2.  Whatever the fragment index, a byte that [ExtendWrite] accepts is
    accepted by [ExtendRead] in turn, which gives back the three bits the
    writer started from, and the very byte when it is a value of the 3-bit
    field. *)
Theorem ExtendWrite_ExtendRead_round_trip (fseq rsv w : Z) :
  ExtendWrite fseq rsv = (w, None) ->
  exists r, ExtendRead fseq w = (r, None) /\
    Ws.RsvBits r = Ws.RsvBits rsv /\
    (Ws.is_rsv rsv -> r = rsv).
Proof.
  unfold ExtendWrite, ExtendRead.
  pose proof (Rsv_RsvBits rsv) as Hback.
  rewrite (RsvBits_projections rsv) in *.
  destruct (r1 rsv) eqn:E1; [discriminate | ].
  destruct (fseq >? 0) eqn:Ef; intros [= <-].
  - rewrite (RsvBits_projections rsv), E1. cbn [andb].
    exists rsv. rewrite (RsvBits_projections rsv), E1. auto.
  - rewrite RsvBits_Rsv. cbn [andb].
    eexists. split; [reflexivity | ]. rewrite RsvBits_Rsv. auto.
Qed.

Lemma ExtendWrite_ExtendRead_round_trip_witness :
  exists r, ExtendRead 0 7 = (r, None) /\
    Ws.RsvBits r = Ws.RsvBits 3 /\ (Ws.is_rsv 3 -> r = 3).
Proof. apply (ExtendWrite_ExtendRead_round_trip 0 3 7). reflexivity. Defined.

(** X3.  On a first fragment [ExtendWrite] never accepts a byte it has
    returned: a header extended once is refused the second time. *)
Theorem ExtendWrite_twice_fails (fseq rsv : Z) :
  fseq <= 0 ->
  snd (ExtendWrite fseq (fst (ExtendWrite fseq rsv))) =
    Some (Errorf "wsflate: compression bit is already set").
Proof.
  intros Hle.
  assert (Hf : (fseq >? 0) = false).
  { rewrite Z.gtb_ltb. apply Z.ltb_ge. lia. }
  unfold ExtendWrite at 2. rewrite (RsvBits_projections rsv), Hf.
  destruct (r1 rsv) eqn:E1; cbn [fst]; unfold ExtendWrite.
  - now rewrite (RsvBits_projections rsv), E1.
  - now rewrite RsvBits_Rsv.
Qed.

Lemma ExtendWrite_twice_fails_witness :
  snd (ExtendWrite 0 (fst (ExtendWrite 0 1))) =
    Some (Errorf "wsflate: compression bit is already set").
Proof. apply ExtendWrite_twice_fails. lia. Defined.

(** X4.  A byte that [ExtendRead] returns without error never has r1 set,
    and reading it again at the same index returns it unchanged; on a first
    fragment or a negative index [ExtendRead] cannot fail. *)
Theorem ExtendRead_clears_r1 (fseq rsv : Z) :
  (forall out, ExtendRead fseq rsv = (out, None) ->
     r1 out = false /\ ExtendRead fseq out = (out, None)) /\
  (fseq <= 0 -> snd (ExtendRead fseq rsv) = None).
Proof.
  unfold ExtendRead at 1 3. rewrite (RsvBits_projections rsv).
  destruct (fseq >? 0) eqn:Ef; cbn [andb].
  - split; [ | intros Hle; apply Z.gtb_gt in Ef; lia].
    destruct (r1 rsv) eqn:E1; intros out [= <-].
    split; [exact E1 | ].
    unfold ExtendRead. now rewrite (RsvBits_projections rsv), Ef, E1.
  - split; [ | reflexivity].
    intros out [= <-]. unfold r1, ExtendRead.
    rewrite !RsvBits_Rsv, Ef. cbn [fst snd andb]. auto.
Qed.

Lemma ExtendRead_clears_r1_witness :
  snd (ExtendRead (-2) 7) = None /\
  r1 (fst (ExtendRead 0 7)) = false.
Proof.
  destruct (ExtendRead_clears_r1 (-2) 7) as [_ Hfirst].
  destruct (ExtendRead_clears_r1 0 7) as [Hout _].
  split; [apply Hfirst; lia | ].
  now destruct (Hout 3 eq_refl).
Defined.

End RsvFurther.

(** ** Encoding: which parameters [Option] accepts and what it emits *)

Section OptionFurther.

Import Wsflate.

Lemma encodable_cases (w : Z) :
  encodable w = true ->
  w = 0 \/ w = 1 \/ w = 8 \/ w = 9 \/ w = 10 \/ w = 11 \/ w = 12 \/
  w = 13 \/ w = 14 \/ w = 15.
Proof.
  unfold encodable, isValidBits.
  rewrite !orb_true_iff, andb_true_iff, !Z.eqb_eq, !Z.leb_le. lia.
Qed.

(** On encodable bits [setBits] does not panic: the table lookup is in
    range and yields the decimal form of the bits. *)
Lemma setBits_encodable (opt : Httphead.Option) (name : string) (bits : Z) :
  encodable bits = true ->
  setBits opt name bits =
    Ok (if bits =? 0 then opt
        else Httphead.Set_ opt name (if bits =? 1 then None else Some (Itoa bits))).
Proof.
  intros H. apply encodable_cases in H.
  repeat (destruct H as [-> | H]; [reflexivity | ]).
  subst bits. reflexivity.
Qed.

Lemma setBits_not_encodable (opt : Httphead.Option) (name : string) (bits : Z) :
  encodable bits = false ->
  setBits opt name bits = Panic ("wsflate: invalid bits value: " ++ Itoa bits).
Proof.
  unfold encodable, setBits.
  destruct (bits =? 0); [discriminate | ].
  destruct (bits =? 1); [discriminate | ].
  cbn [orb]. now intros ->.
Qed.

Lemma Option_encodable (p : Parameters) :
  encodable (ServerMaxWindowBits p) = true ->
  encodable (ClientMaxWindowBits p) = true ->
  exists opt, Option p = Ok opt.
Proof.
  intros Es Ec. unfold Option.
  rewrite (setBits_encodable _ _ _ Es). cbn [bind].
  rewrite (setBits_encodable _ _ _ Ec). cbn [bind].
  eexists. reflexivity.
Qed.

Lemma Option_Ok_encodable (p : Parameters) (opt : Httphead.Option) :
  Option p = Ok opt ->
  encodable (ServerMaxWindowBits p) = true /\
  encodable (ClientMaxWindowBits p) = true.
Proof.
  unfold Option.
  destruct (encodable (ServerMaxWindowBits p)) eqn:Es.
  - rewrite (setBits_encodable _ _ _ Es). cbn [bind].
    destruct (encodable (ClientMaxWindowBits p)) eqn:Ec; [auto | ].
    now rewrite (setBits_not_encodable _ _ _ Ec).
  - now rewrite (setBits_not_encodable _ _ _ Es).
Qed.

(** X5.  [Option] returns an option exactly when both window fields are 0,
    1 or within 8..15; otherwise it panics on the first offending field,
    the server one first, with its value in the message.  The table of
    decimal forms is never indexed out of range. *)
Theorem Option_panics_iff (p : Parameters) :
  ((exists opt, Option p = Ok opt) <->
   encodable (ServerMaxWindowBits p) = true /\
   encodable (ClientMaxWindowBits p) = true) /\
  (forall msg, Option p = Panic msg ->
     (encodable (ServerMaxWindowBits p) = false /\
      msg = "wsflate: invalid bits value: " ++ Itoa (ServerMaxWindowBits p)) \/
     (encodable (ServerMaxWindowBits p) = true /\
      encodable (ClientMaxWindowBits p) = false /\
      msg = "wsflate: invalid bits value: " ++ Itoa (ClientMaxWindowBits p))).
Proof.
  unfold Option.
  destruct (encodable (ServerMaxWindowBits p)) eqn:Es.
  - rewrite (setBits_encodable _ _ _ Es). cbn [bind].
    destruct (encodable (ClientMaxWindowBits p)) eqn:Ec.
    + rewrite (setBits_encodable _ _ _ Ec). cbn [bind].
      split; [split; [auto | intros _; eexists; reflexivity] | discriminate].
    + rewrite (setBits_not_encodable _ _ _ Ec). cbn [bind].
      split; [split; [intros [opt H]; discriminate H | intros [_ H]; discriminate H] | ].
      intros msg [= <-]. right. auto.
  - rewrite (setBits_not_encodable _ _ _ Es). cbn [bind].
    split; [split; [intros [opt H]; discriminate H | intros [H _]; discriminate H] | ].
    intros msg [= <-]. left. auto.
Qed.

Lemma Option_panics_iff_witness :
  (exists opt, Option (mkParameters true false 12 1) = Ok opt) /\
  Option (mkParameters false false 16 7) =
    Panic "wsflate: invalid bits value: 16".
Proof.
  destruct (Option_panics_iff (mkParameters true false 12 1)) as [[_ Hok] _].
  destruct (Option_panics_iff (mkParameters false false 16 7)) as [_ Hmsg].
  split; [apply Hok; split; reflexivity | ].
  destruct (Option (mkParameters false false 16 7)) as [opt | msg] eqn:E;
    [discriminate E | ].
  destruct (Hmsg msg eq_refl) as [[_ ->] | [H _]];
    [reflexivity | discriminate H].
Defined.

Lemma has_key_Set (opt : Httphead.Option) (k key : string) (v : bytes) :
  has_key key (Httphead.Set_ opt k v) = String.eqb k key || has_key key opt.
Proof.
  unfold has_key, Httphead.Set_. cbn [Httphead.Parameters].
  induction (Httphead.Parameters opt) as [ | [k' v'] rest IH];
    cbn [Httphead.set_pair existsb fst].
  - now rewrite orb_false_r.
  - destruct (String.eqb k' k) eqn:E; cbn [existsb fst].
    + apply String.eqb_eq in E. subst k'.
      destruct (String.eqb k key); reflexivity.
    + rewrite IH. destruct (String.eqb k' key), (String.eqb k key); reflexivity.
Qed.

Lemma has_key_setBool (opt : Httphead.Option) (k key : string) (flag : bool) :
  has_key key (setBool opt k flag) = flag && String.eqb k key || has_key key opt.
Proof. destruct flag; [apply has_key_Set | reflexivity]. Qed.

Lemma has_key_setBits (opt opt' : Httphead.Option) (k key : string) (bits : Z) :
  setBits opt k bits = Ok opt' ->
  has_key key opt' = negb (bits =? 0) && String.eqb k key || has_key key opt.
Proof.
  destruct (encodable bits) eqn:E.
  - rewrite (setBits_encodable _ _ _ E). intros [= <-].
    destruct (bits =? 0); [reflexivity | apply has_key_Set].
  - now rewrite (setBits_not_encodable _ _ _ E).
Qed.

(** The keys of an option built by [Option], field by field. *)
Lemma Option_has_key (p : Parameters) (opt : Httphead.Option) (key : string) :
  Option p = Ok opt ->
  has_key key opt =
    negb (ClientMaxWindowBits p =? 0) && String.eqb clientMaxWindowBits key
    || (negb (ServerMaxWindowBits p =? 0) && String.eqb serverMaxWindowBits key
    || (ClientNoContextTakeover p && String.eqb clientNoContextTakeover key
    || (ServerNoContextTakeover p && String.eqb serverNoContextTakeover key))).
Proof.
  unfold Option, bind.
  destruct (setBits _ serverMaxWindowBits _) as [o1 | ] eqn:E1; [ | discriminate].
  destruct (setBits o1 clientMaxWindowBits _) as [o2 | ] eqn:E2; [ | discriminate].
  intros [= <-].
  rewrite (has_key_setBits _ _ _ key _ E2), (has_key_setBits _ _ _ key _ E1).
  rewrite !has_key_setBool. unfold has_key. cbn [Httphead.Parameters existsb].
  now rewrite orb_false_r.
Qed.

(** X6.  The option built by [Option] carries the extension name, holds
    [server_no_context_takeover] and [client_no_context_takeover] exactly
    when the flag is true and each [*_max_window_bits] key exactly when the
    field is not 0, and holds no key [Parse] does not know. *)
Theorem Option_keys (p : Parameters) (opt : Httphead.Option) :
  Option p = Ok opt ->
  Httphead.Name opt = ExtensionNameBytes /\
  has_key serverNoContextTakeover opt = ServerNoContextTakeover p /\
  has_key clientNoContextTakeover opt = ClientNoContextTakeover p /\
  has_key serverMaxWindowBits opt = negb (ServerMaxWindowBits p =? 0) /\
  has_key clientMaxWindowBits opt = negb (ClientMaxWindowBits p =? 0) /\
  (forall key, has_key key opt = true -> recognized key = true).
Proof.
  intros H. split; [exact (Option_Name p opt H) | ].
  repeat (split; [rewrite (Option_has_key p opt _ H);
                  destruct (ServerNoContextTakeover p), (ClientNoContextTakeover p),
                    (ServerMaxWindowBits p =? 0), (ClientMaxWindowBits p =? 0);
                  reflexivity | ]).
  intros key. rewrite (Option_has_key p opt key H). unfold recognized.
  rewrite !(String.eqb_sym key).
  destruct (String.eqb clientMaxWindowBits key),
    (String.eqb serverMaxWindowBits key),
    (String.eqb clientNoContextTakeover key),
    (String.eqb serverNoContextTakeover key);
    rewrite ?andb_false_r; cbn [orb]; auto.
Qed.

Lemma Option_keys_witness :
  exists opt, Option (mkParameters true false 0 9) = Ok opt /\
    has_key serverNoContextTakeover opt = true /\
    has_key serverMaxWindowBits opt = false /\
    has_key clientMaxWindowBits opt = true.
Proof.
  eexists. split; [reflexivity | ].
  destruct (Option_keys (mkParameters true false 0 9) _ eq_refl)
    as (_ & Hs & _ & Hsw & Hcw & _).
  split; [exact Hs | split; [exact Hsw | exact Hcw] ].
Defined.

End OptionFurther.

(** ** Parsing: what [Parse] leaves behind and which errors it raises *)

Section ParseFurther.

Import Wsflate.

Lemma bitsFromASCII_range (v : bytes) (b : Z) (ok : bool) :
  bitsFromASCII v = (b, ok) ->
  (ok = true -> 8 <= b <= 15) /\ (ok = false -> b = 0).
Proof.
  unfold bitsFromASCII, isValidBits.
  destruct (Httphead.IntFromASCII v) as [n [ | ]]; cbn [negb orb].
  - destruct (8 <=? n) eqn:E8; destruct (n <=? 15) eqn:E15; cbn [andb negb];
      intros [= <- <-]; (split; [ | auto]); try discriminate.
    intros _. apply Z.leb_le in E8, E15. rewrite Z.mod_small; lia.
  - intros [= <- <-]. split; [discriminate | auto].
Qed.

(** A property of the variables of the closure that every call of it keeps
    is kept by the whole iteration. *)
Lemma ForEach_invariant (P : parseEnv -> Prop) :
  (forall e k v e' ok, parseParam e k v = (e', ok) -> P e -> P e') ->
  forall ps e, P e -> P (Httphead.ForEach ps parseParam e).
Proof.
  intros Hstep ps. induction ps as [ | [k v] rest IH]; intros e He; [exact He | ].
  cbn [Httphead.ForEach].
  destruct (parseParam e k v) as [e' [ | ]] eqn:E.
  - apply IH. exact (Hstep _ _ _ _ _ E He).
  - exact (Hstep _ _ _ _ _ E He).
Qed.

Lemma parseParam_bits (e e' : parseEnv) (k : string) (v : bytes) (ok : bool) :
  parseParam e k v = (e', ok) -> parsed_bits (env_p e) -> parsed_bits (env_p e').
Proof.
  unfold parseParam. intros H Hp.
  destruct (bitsFromASCII v) as [b [ | ]] eqn:Eb;
    apply bitsFromASCII_range in Eb; destruct Eb as [Hyes Hno];
    try specialize (Hyes eq_refl); try specialize (Hno eq_refl);
    repeat match type of H with
      | context [if ?c then _ else _] => destruct c
      end;
    injection H as <- <-; unfold parsed_bits in *; cbn in *; intuition lia.
Qed.

Lemma Parse_parsed_bits (q : Parameters) (opt : Httphead.Option) :
  parsed_bits (fst (Parse q opt)).
Proof.
  unfold Parse. cbn [fst].
  apply (ForEach_invariant (fun e => parsed_bits (env_p e)));
    [intros e k v e' ok; apply parseParam_bits | ].
  unfold parsed_bits. cbn. lia.
Qed.

Lemma parsed_bits_encodable (p : Parameters) :
  parsed_bits p ->
  encodable (ServerMaxWindowBits p) = true /\
  encodable (ClientMaxWindowBits p) = true /\
  ServerMaxWindowBits p <> 1.
Proof.
  intros [Hs Hc]. unfold encodable, isValidBits.
  rewrite !orb_true_iff, andb_true_iff, !Z.eqb_eq, !Z.leb_le. lia.
Qed.

(** X7.  Whatever the option, and whether or not it reports an error,
    [Parse] leaves in its receiver only window bits that are 0 or within
    8..15, or 1 for the client window; so [Option] never panics on
    parameters that come out of [Parse]. *)
Theorem Parse_bits_encodable (q : Parameters) (opt : Httphead.Option) :
  parsed_bits (fst (Parse q opt)) /\
  exists again, Option (fst (Parse q opt)) = Ok again.
Proof.
  pose proof (Parse_parsed_bits q opt) as Hbits.
  split; [exact Hbits | ].
  destruct (parsed_bits_encodable _ Hbits) as (Hs & Hc & _).
  now apply Option_encodable.
Qed.

Lemma Parse_bits_encodable_witness :
  exists again,
    Option (fst (Parse zeroParameters
                   (Httphead.mkOption ExtensionNameBytes
                      [(clientMaxWindowBits, None);
                       (serverMaxWindowBits, Some "77")]))) = Ok again.
Proof. apply Parse_bits_encodable. Defined.

Lemma parseParam_unexpected (e : parseEnv) (k : string) (v : bytes) :
  recognized k = false ->
  parseParam e k v = (with_err e (paramError "unexpected" k v), false).
Proof.
  unfold recognized, parseParam. rewrite !orb_false_iff.
  intros [[[-> ->] ->] ->]. reflexivity.
Qed.

Lemma ForEach_app_stop (ps qs : list (string * bytes)) :
  forall e,
    env_err e = None ->
    env_err (Httphead.ForEach ps parseParam e) <> None ->
    Httphead.ForEach (ps ++ qs) parseParam e = Httphead.ForEach ps parseParam e.
Proof.
  induction ps as [ | [k v] rest IH]; intros e He Hend; [contradiction | ].
  cbn [Httphead.ForEach app] in *.
  destruct (parseParam e k v) as [e' [ | ]] eqn:P; [ | reflexivity].
  apply IH; [ | exact Hend].
  destruct (parseParam_continue _ _ _ _ P) as [Herr _]. congruence.
Qed.

(** X8.  An option holding a key other than the four known ones never
    parses: [Parse] returns a non-nil error wherever the key stands, and the
    error is the "unexpected" one, with that key and its value, when the
    pairs before it parse without error. *)
Theorem Parse_unknown_key (q : Parameters) (name : bytes)
        (pre post : list (string * bytes)) (k : string) (v : bytes) :
  recognized k = false ->
  snd (Parse q (Httphead.mkOption name (pre ++ (k, v) :: post))) <> None /\
  (snd (Parse q (Httphead.mkOption name pre)) = None ->
   snd (Parse q (Httphead.mkOption name (pre ++ (k, v) :: post)))
     = Some (ParamError "unexpected" k v)).
Proof.
  intros Hk. unfold Parse. cbn [snd Httphead.Parameters].
  set (e0 := mkEnv zeroParameters 0 None).
  assert (Hreach : env_err (Httphead.ForEach pre parseParam e0) = None ->
            env_err (Httphead.ForEach (pre ++ (k, v) :: post) parseParam e0)
              = Some (ParamError "unexpected" k v)).
  { intros Hpre. rewrite ForEach_app by exact Hpre.
    cbn [Httphead.ForEach]. now rewrite (parseParam_unexpected _ k v Hk). }
  split; [ | exact Hreach].
  destruct (env_err (Httphead.ForEach pre parseParam e0)) as [x | ] eqn:Epre.
  - rewrite ForEach_app_stop; [ | reflexivity | ]; now rewrite Epre.
  - now rewrite Hreach.
Qed.

Lemma Parse_unknown_key_witness :
  snd (Parse zeroParameters
         (Httphead.mkOption ExtensionNameBytes
            [(serverNoContextTakeover, None); ("x-webkit-deflate", Some "1");
             (clientNoContextTakeover, None)]))
    = Some (ParamError "unexpected" "x-webkit-deflate" (Some "1")).
Proof.
  apply (Parse_unknown_key zeroParameters ExtensionNameBytes
           [(serverNoContextTakeover, None)] [(clientNoContextTakeover, None)]);
    reflexivity.
Defined.

Lemma parseParam_stop_error (e e' : parseEnv) (k : string) (v : bytes) :
  parseParam e k v = (e', false) ->
  exists reason, env_err e' = Some (ParamError reason k v) /\ parse_reason reason.
Proof.
  unfold parseParam, parse_reason.
  repeat match goal with
    | |- context [if ?c then _ else _] => destruct c
    | |- context [bitsFromASCII ?x] => destruct (bitsFromASCII x) as [? [ | ]]
    end;
    cbn [negb]; intros H; try discriminate H; injection H as <-;
    eexists; (split; [reflexivity | auto]).
Qed.

Lemma ForEach_error (ps : list (string * bytes)) :
  forall e x,
    env_err e = None ->
    env_err (Httphead.ForEach ps parseParam e) = Some x ->
    exists reason k v,
      x = ParamError reason k v /\ In (k, v) ps /\ parse_reason reason.
Proof.
  induction ps as [ | [k v] rest IH]; intros e x He Hend;
    cbn [Httphead.ForEach] in Hend; [congruence | ].
  destruct (parseParam e k v) as [e' [ | ]] eqn:P.
  - destruct (parseParam_continue _ _ _ _ P) as [Herr _].
    destruct (IH e' x (eq_trans Herr He) Hend) as (reason & k' & v' & Hx & Hin & Hr).
    exists reason, k', v'. cbn [In]. auto.
  - destruct (parseParam_stop_error _ _ _ _ P) as (reason & Herr & Hr).
    exists reason, k, v. cbn [In]. split; [congruence | auto].
Qed.

(** X9.  Every error [Parse] returns is a parameter error whose reason is
    "duplicate", "invalid" or "unexpected" and which carries a key and value
    pair of the option parsed. *)
Theorem Parse_error_class (q : Parameters) (opt : Httphead.Option) (x : error) :
  snd (Parse q opt) = Some x ->
  exists reason k v,
    x = ParamError reason k v /\
    In (k, v) (Httphead.Parameters opt) /\
    parse_reason reason.
Proof.
  unfold Parse. cbn [snd]. intros H.
  exact (ForEach_error _ (mkEnv zeroParameters 0 None) x eq_refl H).
Qed.

Lemma Parse_error_class_witness :
  exists reason k v,
    ParamError "invalid" clientNoContextTakeover (Some "on")
      = ParamError reason k v /\
    In (k, v) [(clientNoContextTakeover, Some "on")] /\
    parse_reason reason.
Proof.
  apply (Parse_error_class zeroParameters
           (Httphead.mkOption ExtensionNameBytes
              [(clientNoContextTakeover, Some "on")])).
  reflexivity.
Defined.

(** A field that each accepted pair updates by or-ing in whether the pair
    has a given key ends up telling whether the key occurred. *)
Lemma ForEach_tracks (f : Parameters -> bool) (key : string) :
  (forall e k v e', parseParam e k v = (e', true) ->
     parsed_bits (env_p e) ->
     f (env_p e') = f (env_p e) || String.eqb k key) ->
  forall ps e,
    parsed_bits (env_p e) ->
    env_err (Httphead.ForEach ps parseParam e) = None ->
    f (env_p (Httphead.ForEach ps parseParam e)) =
      f (env_p e) || existsb (fun kv => String.eqb (fst kv) key) ps.
Proof.
  intros Hstep ps. induction ps as [ | [k v] rest IH]; intros e Hb Hend.
  - cbn. now rewrite orb_false_r.
  - cbn [Httphead.ForEach existsb fst] in *.
    destruct (parseParam e k v) as [e' [ | ]] eqn:P.
    + rewrite (IH e' (parseParam_bits _ _ _ _ _ P Hb) Hend).
      rewrite (Hstep _ _ _ _ P Hb). now rewrite orb_assoc.
    + now apply parseParam_stop in P.
Qed.

(** Follows an accepted call of the closure down to the pair it returns. *)
Ltac accepted_branch P :=
  cbn [negb] in P;
  repeat match type of P with
    | context [if ?c then _ else _] => destruct c
    end;
  try discriminate P; injection P as <-.

Lemma parseParam_fields (e e' : parseEnv) (k : string) (v : bytes) :
  parseParam e k v = (e', true) ->
  parsed_bits (env_p e) ->
  ServerNoContextTakeover (env_p e') =
    ServerNoContextTakeover (env_p e) || String.eqb k serverNoContextTakeover /\
  ClientNoContextTakeover (env_p e') =
    ClientNoContextTakeover (env_p e) || String.eqb k clientNoContextTakeover /\
  WindowBits_Defined (ServerMaxWindowBits (env_p e')) =
    WindowBits_Defined (ServerMaxWindowBits (env_p e))
    || String.eqb k serverMaxWindowBits /\
  WindowBits_Defined (ClientMaxWindowBits (env_p e')) =
    WindowBits_Defined (ClientMaxWindowBits (env_p e))
    || String.eqb k clientMaxWindowBits.
Proof.
  intros P Hb.
  destruct (bitsFromASCII v) as [b okb] eqn:Eb.
  pose proof (bitsFromASCII_range v b okb Eb) as [Hyes _].
  unfold parseParam in P. rewrite Eb in P.
  destruct (String.eqb k clientMaxWindowBits) eqn:K1.
  { apply String.eqb_eq in K1. subst k.
    destruct okb; accepted_branch P; cbn;
      rewrite ?orb_false_r, ?orb_true_r; repeat split.
    all: unfold WindowBits_Defined; apply Z.gtb_gt;
      first [lia | specialize (Hyes eq_refl); lia]. }
  destruct (String.eqb k serverMaxWindowBits) eqn:K2.
  { apply String.eqb_eq in K2. subst k.
    destruct okb; accepted_branch P; cbn;
      rewrite ?orb_false_r, ?orb_true_r; repeat split.
    all: unfold WindowBits_Defined; apply Z.gtb_gt;
      first [lia | specialize (Hyes eq_refl); lia]. }
  destruct (String.eqb k clientNoContextTakeover) eqn:K3.
  { apply String.eqb_eq in K3. subst k.
    accepted_branch P; cbn; rewrite ?orb_false_r, ?orb_true_r; repeat split. }
  destruct (String.eqb k serverNoContextTakeover) eqn:K4.
  { apply String.eqb_eq in K4. subst k.
    accepted_branch P; cbn; rewrite ?orb_false_r, ?orb_true_r; repeat split. }
  discriminate P.
Qed.

Lemma Parse_field_key (f : Parameters -> bool) (key : string)
      (q : Parameters) (opt : Httphead.Option) :
  f zeroParameters = false ->
  (forall e k v e', parseParam e k v = (e', true) ->
     parsed_bits (env_p e) ->
     f (env_p e') = f (env_p e) || String.eqb k key) ->
  snd (Parse q opt) = None ->
  f (fst (Parse q opt)) = has_key key opt.
Proof.
  unfold Parse, has_key. cbn [fst snd]. intros Hzero Hstep Hok.
  rewrite (ForEach_tracks f key Hstep); [ | | exact Hok].
  - cbn [env_p]. now rewrite Hzero.
  - unfold parsed_bits. cbn. lia.
Qed.

(** X10.  When [Parse] succeeds, each flag of the parameters is true exactly
    when its [*_no_context_takeover] key occurs in the option, and each
    window field is defined (above 0) exactly when its [*_max_window_bits]
    key occurs. *)
Theorem Parse_fields_keys (q : Parameters) (opt : Httphead.Option) :
  snd (Parse q opt) = None ->
  ServerNoContextTakeover (fst (Parse q opt)) = has_key serverNoContextTakeover opt /\
  ClientNoContextTakeover (fst (Parse q opt)) = has_key clientNoContextTakeover opt /\
  WindowBits_Defined (ServerMaxWindowBits (fst (Parse q opt)))
    = has_key serverMaxWindowBits opt /\
  WindowBits_Defined (ClientMaxWindowBits (fst (Parse q opt)))
    = has_key clientMaxWindowBits opt.
Proof.
  intros Hok.
  split; [ | split; [ | split] ].
  - apply (Parse_field_key ServerNoContextTakeover); [reflexivity | | exact Hok].
    intros e k v e' P Hp. apply (parseParam_fields e e' k v P Hp).
  - apply (Parse_field_key ClientNoContextTakeover); [reflexivity | | exact Hok].
    intros e k v e' P Hp. apply (parseParam_fields e e' k v P Hp).
  - apply (Parse_field_key (fun p => WindowBits_Defined (ServerMaxWindowBits p)));
      [reflexivity | | exact Hok].
    intros e k v e' P Hp. apply (parseParam_fields e e' k v P Hp).
  - apply (Parse_field_key (fun p => WindowBits_Defined (ClientMaxWindowBits p)));
      [reflexivity | | exact Hok].
    intros e k v e' P Hp. apply (parseParam_fields e e' k v P Hp).
Qed.

Lemma Parse_fields_keys_witness :
  let opt := Httphead.mkOption ExtensionNameBytes
               [(clientMaxWindowBits, None); (serverNoContextTakeover, None)] in
  ServerNoContextTakeover (fst (Parse zeroParameters opt)) = true /\
  ClientNoContextTakeover (fst (Parse zeroParameters opt)) = false /\
  WindowBits_Defined (ServerMaxWindowBits (fst (Parse zeroParameters opt))) = false /\
  WindowBits_Defined (ClientMaxWindowBits (fst (Parse zeroParameters opt))) = true.
Proof.
  intros opt. exact (Parse_fields_keys zeroParameters opt eq_refl).
Defined.

(** Every parameters value [Option] encodes parses back to itself, save
    for the bare server window. *)
Lemma Option_Parse_all (p q : Parameters) :
  encodable (ServerMaxWindowBits p) = true ->
  encodable (ClientMaxWindowBits p) = true ->
  ServerMaxWindowBits p <> 1 ->
  exists opt, Option p = Ok opt /\ Parse q opt = (p, None).
Proof.
  destruct p as [a b s c]. cbn [ServerMaxWindowBits ClientMaxWindowBits].
  intros Hs Hc Hne.
  apply encodable_cases in Hs, Hc.
  repeat (destruct Hs as [-> | Hs]); try subst s; try (now contradiction Hne);
    repeat (destruct Hc as [-> | Hc]); try subst c;
    destruct a, b; eexists; split; reflexivity.
Qed.

(** X11.  Parameters that [Parse] produced without error can always be
    encoded again by [Option], and the encoding parses back, without error,
    to the same parameters: parsing, encoding and parsing again changes
    nothing. *)
Theorem Parse_Option_Parse (q q' : Parameters) (opt : Httphead.Option)
        (p : Parameters) :
  Parse q opt = (p, None) ->
  exists again, Option p = Ok again /\ Parse q' again = (p, None).
Proof.
  intros H.
  pose proof (Parse_parsed_bits q opt) as Hbits. rewrite H in Hbits.
  destruct (parsed_bits_encodable _ Hbits) as (Hs & Hc & Hne).
  now apply Option_Parse_all.
Qed.

Lemma Parse_Option_Parse_witness :
  exists again,
    Option (mkParameters false true 11 1) = Ok again /\
    Parse zeroParameters again = (mkParameters false true 11 1, None).
Proof.
  apply (Parse_Option_Parse zeroParameters zeroParameters
           (Httphead.mkOption ExtensionNameBytes
              [(clientMaxWindowBits, None); (serverMaxWindowBits, Some "11");
               (clientNoContextTakeover, None)])).
  reflexivity.
Defined.

End ParseFurther.

(** ** Negotiation: what an accepted extension guarantees *)

Section NegotiateFurther.

Import Wsflate.

(** One call of [Negotiate] keeps the desired parameters and the two facts
    an accepted extension stands for. *)
Lemma Negotiate_keeps (n : Extension) (opt : Httphead.Option) :
  ext_Parameters (fst (Negotiate n opt)) = ext_Parameters n /\
  (settled n -> settled (fst (Negotiate n opt))) /\
  ((accepted n = true -> parsed_bits (params n)) ->
   accepted (fst (Negotiate n opt)) = true ->
   parsed_bits (params (fst (Negotiate n opt)))).
Proof.
  unfold Negotiate, settled, decline_rule.
  destruct (negb (bytes_Equal _ _)); [cbn [fst]; auto | ].
  destruct (accepted n) eqn:Ea; [cbn [fst]; rewrite Ea; auto | ].
  pose proof (Parse_parsed_bits (params n) opt) as Hbits.
  destruct (Parse (params n) opt) as [parsed [e | ]]; cbn [fst] in Hbits.
  - cbn. rewrite Ea. repeat split; discriminate.
  - unfold set_params, set_accepted. cbn [params ext_Parameters accepted].
    destruct (ServerMaxWindowBits parsed >? _) eqn:R1;
      [cbn; rewrite Ea; repeat split; discriminate | ].
    destruct (ClientMaxWindowBits _ >? _) eqn:R2;
      [cbn; rewrite Ea; repeat split; discriminate | ].
    destruct (ServerNoContextTakeover parsed && _) eqn:R3;
      [cbn; rewrite Ea; repeat split; discriminate | ].
    cbn [fst ext_Parameters accepted params].
    rewrite R1, R2, R3. auto.
Qed.

(** X12.  Starting from an extension that has not accepted, as a new one or
    one just [Reset], any run of [Negotiate] calls leaves the desired
    parameters as they were, and if it ends with [accepted] set then the
    observed parameters pass the three rules against the desired ones and
    hold only window bits [Parse] can produce. *)
Theorem NegotiateAll_settled (opts : list Httphead.Option) (n : Extension) :
  accepted n = false ->
  ext_Parameters (fst (NegotiateAll n opts)) = ext_Parameters n /\
  (accepted (fst (NegotiateAll n opts)) = true ->
   decline_rule (ext_Parameters n) (params (fst (NegotiateAll n opts))) = false /\
   parsed_bits (params (fst (NegotiateAll n opts)))).
Proof.
  intros Ha.
  assert (Hinv : settled n /\ (accepted n = true -> parsed_bits (params n))).
  { unfold settled. rewrite Ha. split; discriminate. }
  clear Ha. revert n Hinv.
  induction opts as [ | opt rest IH]; intros n [Hs Hb].
  - cbn [NegotiateAll fst]. split; [reflexivity | ]. intros Ha. auto.
  - cbn [NegotiateAll].
    destruct (Negotiate_keeps n opt) as (Hd & Hs' & Hb').
    destruct (Negotiate n opt) as [n1 r]. cbn [fst] in Hd, Hs', Hb'.
    specialize (IH n1 (conj (Hs' Hs) (Hb' Hb))).
    destruct (NegotiateAll n1 rest) as [n2 rs]. cbn [fst] in IH |- *.
    rewrite Hd in IH. exact IH.
Qed.

Lemma NegotiateAll_settled_witness :
  let n := Reset (mkExtension (mkParameters false false 10 0) true
                              (mkParameters true true 15 15)) in
  let opts := [Httphead.mkOption ExtensionNameBytes [(serverMaxWindowBits, Some "15")];
               Httphead.mkOption ExtensionNameBytes [(serverMaxWindowBits, Some "9")];
               Httphead.mkOption ExtensionNameBytes []] in
  decline_rule (ext_Parameters n) (params (fst (NegotiateAll n opts))) = false /\
  parsed_bits (params (fst (NegotiateAll n opts))).
Proof.
  intros n opts.
  apply (NegotiateAll_settled opts n); reflexivity.
Defined.

(** X13.  When [Negotiate] accepts an offer, the response names the
    extension, carries [client_max_window_bits] only if the offer carried
    it, and carries [server_no_context_takeover] whenever the offer did. *)
Theorem accept_response_keys (n n' : Extension) (opt accept : Httphead.Option) :
  accepted n = false ->
  Negotiate n opt = (n', Ok (accept, None)) ->
  accepted n' = true ->
  Httphead.Name accept = ExtensionNameBytes /\
  (has_key clientMaxWindowBits accept = true ->
   has_key clientMaxWindowBits opt = true) /\
  (has_key serverNoContextTakeover opt = true ->
   has_key serverNoContextTakeover accept = true).
Proof.
  intros Ha. unfold Negotiate. rewrite Ha.
  destruct (negb (bytes_Equal _ _)); [intros [= <- <-]; congruence | ].
  pose proof (Parse_parsed_bits (params n) opt) as Hbits.
  assert (Hclient : snd (Parse (params n) opt) = None ->
            WindowBits_Defined (ClientMaxWindowBits (fst (Parse (params n) opt)))
              = has_key clientMaxWindowBits opt).
  { apply (Parse_field_key (fun p => WindowBits_Defined (ClientMaxWindowBits p)));
      [reflexivity | ].
    intros e k v e' P Hp. apply (parseParam_fields e e' k v P Hp). }
  assert (Hserver : snd (Parse (params n) opt) = None ->
            ServerNoContextTakeover (fst (Parse (params n) opt))
              = has_key serverNoContextTakeover opt).
  { apply (Parse_field_key ServerNoContextTakeover); [reflexivity | ].
    intros e k v e' P Hp. apply (parseParam_fields e e' k v P Hp). }
  destruct (Parse (params n) opt) as [parsed [e | ]];
    cbn [fst snd] in Hbits, Hclient, Hserver.
  { intros H. discriminate H. }
  specialize (Hclient eq_refl). specialize (Hserver eq_refl).
  unfold set_params, set_accepted. cbn [params ext_Parameters accepted].
  rewrite Ha.
  destruct (ServerMaxWindowBits parsed >? _); [intros [= <- <-]; discriminate | ].
  destruct (ClientMaxWindowBits _ >? _) eqn:R2; [intros [= <- <-]; discriminate | ].
  destruct (ServerNoContextTakeover parsed && _) eqn:R3;
    [intros [= <- <-]; discriminate | ].
  unfold bind.
  destruct (Option (ext_Parameters n)) as [o | msg] eqn:Eo; [ | discriminate].
  intros [= <- <-] _.
  split; [exact (Option_Name _ _ Eo) | ].
  rewrite !(Option_has_key _ _ _ Eo), <- Hclient, <- Hserver.
  change (String.eqb clientMaxWindowBits clientMaxWindowBits) with true.
  change (String.eqb serverMaxWindowBits clientMaxWindowBits) with false.
  change (String.eqb clientNoContextTakeover clientMaxWindowBits) with false.
  change (String.eqb serverNoContextTakeover clientMaxWindowBits) with false.
  change (String.eqb clientMaxWindowBits serverNoContextTakeover) with false.
  change (String.eqb serverMaxWindowBits serverNoContextTakeover) with false.
  change (String.eqb clientNoContextTakeover serverNoContextTakeover) with false.
  change (String.eqb serverNoContextTakeover serverNoContextTakeover) with true.
  rewrite ?andb_false_r, ?andb_true_r, ?orb_false_r. cbn [orb].
  split.
  - intros Hwant. apply negb_true_iff, Z.eqb_neq in Hwant.
    unfold WindowBits_Defined. apply Z.gtb_gt.
    rewrite Z.gtb_ltb in R2. apply Z.ltb_ge in R2.
    destruct (Option_Ok_encodable _ _ Eo) as [_ Hc].
    apply encodable_cases in Hc. lia.
  - intros Hoffer. rewrite Hoffer in R3. cbn [andb] in R3.
    now apply negb_false_iff in R3.
Qed.

Lemma accept_response_keys_witness :
  let n := mkExtension (mkParameters true false 0 9) false zeroParameters in
  let opt := Httphead.mkOption ExtensionNameBytes
               [(clientMaxWindowBits, Some "12"); (serverNoContextTakeover, None)] in
  let accept := Httphead.mkOption ExtensionNameBytes
                  [(serverNoContextTakeover, None); (clientMaxWindowBits, Some "9")] in
  Httphead.Name accept = ExtensionNameBytes /\
  (has_key clientMaxWindowBits accept = true ->
   has_key clientMaxWindowBits opt = true) /\
  (has_key serverNoContextTakeover opt = true ->
   has_key serverNoContextTakeover accept = true).
Proof.
  intros n opt accept.
  apply (accept_response_keys n
           (mkExtension (mkParameters true false 0 9) true
                        (mkParameters true false 0 12)) opt accept);
    reflexivity.
Defined.

(** X14.  What an earlier negotiation left in the observed parameters has
    no influence on the next one: for an extension that has not accepted,
    the results of [Negotiate] are the same whatever the observed
    parameters were, and so is the extension afterwards when the offer is
    named for this extension. *)
Theorem Negotiate_forgets_observed (n : Extension) (stale : Parameters)
        (opt : Httphead.Option) :
  accepted n = false ->
  snd (Negotiate (set_params n stale) opt) = snd (Negotiate n opt) /\
  (bytes_Equal (Httphead.Name opt) ExtensionNameBytes = true ->
   Negotiate (set_params n stale) opt = Negotiate n opt).
Proof.
  intros Ha. unfold Negotiate.
  assert (Hparse : Parse (params (set_params n stale)) opt = Parse (params n) opt)
    by reflexivity.
  rewrite Hparse.
  change (accepted (set_params n stale)) with (accepted n).
  change (ext_Parameters (set_params n stale)) with (ext_Parameters n).
  rewrite Ha.
  destruct (bytes_Equal (Httphead.Name opt) ExtensionNameBytes); cbn [negb].
  - assert (Hsame : forall p, set_params (set_params n stale) p = set_params n p)
      by reflexivity.
    destruct (Parse (params n) opt) as [parsed [e | ]]; rewrite Hsame; auto.
  - split; [reflexivity | discriminate].
Qed.

Lemma Negotiate_forgets_observed_witness :
  let n := mkExtension (mkParameters false false 10 0) false zeroParameters in
  let opt := Httphead.mkOption ExtensionNameBytes [(serverMaxWindowBits, Some "9")] in
  Negotiate (set_params n (mkParameters true true 15 15)) opt = Negotiate n opt.
Proof.
  intros n opt.
  apply (Negotiate_forgets_observed n (mkParameters true true 15 15) opt);
    reflexivity.
Defined.

End NegotiateFurther.

(** ** The stream writer: errors stick *)

Section WriterFurther.

Import Writer.

Context {C : Type} {I : Compressor C}.

(** Whatever the call and the state of the writer, the error returned is
    the error left stored. *)
Lemma perform_stores (w : Writer C) (k : call) :
  err (fst (perform w k)) = snd (perform w k).
Proof.
  destruct k as [p | | ]; cbn [perform].
  - unfold Write. destruct (init w) as [w1 x1].
    destruct (err w1) as [e | ] eqn:E; [exact E | ].
    destruct (c_Write x1 (w_cbuf w1) p) as [[x' cb'] [cnt e]]. reflexivity.
  - unfold Flush. destruct (init w) as [w1 x1].
    destruct (err w1) as [e | ] eqn:E; [exact E | ].
    destruct (c_Flush x1 (w_cbuf w1)) as [[x' cb'] e]. reflexivity.
  - unfold Close. destruct (err w) as [e | ] eqn:E; [exact E | ].
    destruct (init w) as [w1 x1]. reflexivity.
Qed.

(** X15.  [Err] always reports what the last call returned, and the first
    call of a run that fails, be it through the compressor or through the
    trailer check, decides the rest of the run: every later call returns
    that same error and it is the one stored at the end. *)
Theorem first_error_sticks (w : Writer C) (k : call) (ks : list call)
        (e : error) :
  snd (perform w k) = Some e ->
  snd (performAll w (k :: ks)) = repeat (Some e) (S (List.length ks)) /\
  Err (fst (performAll w (k :: ks))) = Some e.
Proof.
  intros Hfail. cbn [performAll repeat].
  pose proof (perform_stores w k) as Hstored. rewrite Hfail in Hstored.
  destruct (perform w k) as [w1 r]. cbn [fst snd] in *. subst r.
  destruct (poisoned_performAll e ks w1 Hstored) as (Hres & Herr & _).
  destruct (performAll w1 ks) as [w2 es]. cbn [fst snd] in *.
  unfold Err. now rewrite Hres.
Qed.

End WriterFurther.

Section WriterFurtherExamples.

Import Writer.

Lemma first_error_sticks_witness :
  let bad := storing [x00; x01; xff; xff] in
  let e := BadTailError (x00, x01, xff, xff) compressionTail in
  snd (@performAll unit bad (newWriter [])
         [CallFlush; CallWrite [x61]; CallFlush; CallClose])
    = [Some e; Some e; Some e; Some e].
Proof.
  intros bad e.
  apply (@first_error_sticks unit bad (newWriter []) CallFlush
           [CallWrite [x61]; CallFlush; CallClose] e).
  reflexivity.
Defined.

End WriterFurtherExamples.

(** ** The stream reader: errors do not stick *)

Section ReaderFurther.

Import Reader.

Context {D : Type} {I : Decompressor D}.

Lemma init_r_err (r : Reader D) : r_err (fst (init r)) = r_err r.
Proof.
  unfold init. destruct (d r); [reflexivity | ].
  cbn. destruct (NewDecompressor r _). reflexivity.
Qed.

(** No call stores an error in the reader. *)
Lemma perform_r_err (r : Reader D) (k : call) :
  r_err (fst (perform r k)) = r_err r.
Proof.
  pose proof (init_r_err r) as Hi.
  destruct k as [cap | ]; cbn [perform]; unfold Read, Close;
    destruct (init r) as [r1 x1]; cbn [fst] in Hi.
  - destruct (r_err r1) as [e | ] eqn:E; [cbn; congruence | ].
    destruct (d_Read x1 (sr r1) cap) as [[x' s'] [bs e]]. cbn. congruence.
  - destruct (r_err r1) as [e | ] eqn:E; [cbn; congruence | ].
    destruct d_Close as [close | ]; [ | cbn; congruence].
    destruct (close x1 (sr r1)) as [[x' s'] e]. cbn. congruence.
Qed.

(** X16.  Unlike the writer, the reader never stores an error: [Read] and
    [Close] leave the stored error as it was, whatever the decompressor
    answered, and [Reset] sets it to nil.  So on a reader created without
    error, the stored error is still nil after any run of calls, and a
    [Read] that follows a failed [Read] reaches the decompressor again. *)
Theorem Reader_never_poisoned (r : Reader D) :
  (forall ks, r_err (fst (performAll r ks)) = r_err r) /\
  (forall src, r_err (Reset r src) = None /\ Source (Reset r src) = src) /\
  (r_err r = None ->
   forall ks cap,
     let r' := fst (performAll r ks) in
     snd (Read r' cap) =
       snd (d_Read (snd (init r')) (sr (fst (init r'))) cap)).
Proof.
  assert (Hrun : forall ks r0, r_err (fst (performAll r0 ks)) = r_err r0).
  { induction ks as [ | k rest IH]; intros r0; [reflexivity | ].
    cbn [performAll].
    pose proof (perform_r_err r0 k) as Hk.
    destruct (perform r0 k) as [r1 e]. cbn [fst] in Hk.
    specialize (IH r1).
    destruct (performAll r1 rest) as [r2 es]. cbn [fst] in *. congruence. }
  split; [intros ks; apply Hrun | split].
  - intros src. unfold Reset. destruct (init r) as [r1 x1].
    destruct d_Reset as [reset | ].
    + destruct (reset x1 _). split; reflexivity.
    + destruct (NewDecompressor _ _). split; reflexivity.
  - intros Hnil ks cap r'.
    assert (Hr' : r_err r' = None) by (unfold r'; now rewrite Hrun).
    pose proof (init_r_err r') as Hi. rewrite Hr' in Hi.
    unfold Read. destruct (init r') as [r1 x1]. cbn [fst snd] in *.
    rewrite Hi.
    destruct (d_Read x1 (sr r1) cap) as [[x' s'] res]. reflexivity.
Qed.

End ReaderFurther.

Section ReaderFurtherExamples.

Import Reader.

Lemma Reader_never_poisoned_witness :
  let e := ExternalError 7 in
  snd (@performAll unit (failing e) (newReader [x61])
         [CallRead 16; CallRead 16; CallClose])
    = [Some e; Some e; None] /\
  r_err (fst (@performAll unit (failing e) (newReader [x61])
                [CallRead 16; CallRead 16; CallClose])) = None.
Proof.
  intros e. split; [reflexivity | ].
  destruct (@Reader_never_poisoned unit (failing e) (newReader [x61]))
    as (Hrun & _).
  apply Hrun.
Defined.

End ReaderFurtherExamples.

(** ** The window size *)

Section WindowFurther.

Import Wsflate.

(** X17.  For window bits within 8..15, [Bytes] is two to the power of the
    bits without overflow: at least 256, at most [MaxLZ77WindowSize], which
    15 bits reach; it grows with the bits. *)
Theorem Bytes_bounds (b : Z) :
  isValidBits b = true ->
  Bytes b = 2 ^ b /\
  256 <= Bytes b <= MaxLZ77WindowSize /\
  (Bytes b = MaxLZ77WindowSize <-> b = 15) /\
  (forall b', isValidBits b' = true -> b < b' -> Bytes b < Bytes b').
Proof.
  intros Hb.
  assert (Hval : forall x, isValidBits x = true ->
            x = 8 \/ x = 9 \/ x = 10 \/ x = 11 \/ x = 12 \/ x = 13 \/
            x = 14 \/ x = 15).
  { intros x. unfold isValidBits. rewrite andb_true_iff, !Z.leb_le. lia. }
  assert (Hpow : forall x, isValidBits x = true -> Bytes x = 2 ^ x).
  { intros x Hx. apply Hval in Hx.
    repeat (destruct Hx as [-> | Hx]; [reflexivity | ]). subst x. reflexivity. }
  split; [now apply Hpow | ].
  split; [ | split].
  - apply Hval in Hb. unfold MaxLZ77WindowSize.
    repeat (destruct Hb as [-> | Hb]; [cbv; split; discriminate | ]).
    subst b. cbv. split; discriminate.
  - rewrite (Hpow b Hb). unfold MaxLZ77WindowSize. apply Hval in Hb.
    change 32768 with (2 ^ 15). split.
    + intros H. apply Z.pow_inj_r in H; lia.
    + now intros ->.
  - intros b' Hb' Hlt. rewrite (Hpow b Hb), (Hpow b' Hb').
    apply Hval in Hb, Hb'. apply Z.pow_lt_mono_r; lia.
Qed.

Lemma Bytes_bounds_witness :
  Bytes 15 = 2 ^ 15 /\ 256 <= Bytes 15 <= MaxLZ77WindowSize.
Proof.
  destruct (Bytes_bounds 15 eq_refl) as (Hpow & Hrange & _).
  split; [exact Hpow | exact Hrange].
Defined.

End WindowFurther.
